(** * controllers/argo_cluster.go: CAPI kubeconfig secret to Argo cluster secret

    A shallow embedding of the conversion code of the operator
    (take-along metadata selection, naming, assembly of the transfer
    object, synthesis of the Argo secret) and the properties checked
    against it.

    Conventions of the embedding:
    - Go strings are [string] (sequences of bytes);
    - a Go [map[string]string] is a [gmap string string]; where the code
      distinguishes the nil map from an allocated one, [GoMap] keeps the
      distinction;
    - a [for ... range m] loop over a map visits every key exactly once
      in an order the runtime chooses: every function with such a loop
      takes the visiting order as an argument, and the theorems hold for
      every order that is a permutation of the map's keys (entries);
    - a pointer to a string ([*string]) is an [option string]; a
      pointer parameter is an [option] too, [None] being nil, and
      reading a field through a nil pointer panics;
    - a (value, error) result is a pair whose second component is the
      error, [None] standing for Go's nil error;
    - indexing a slice out of range panics; a call that panics has the
      outcome [Panicked]. *)

From stdpp Require Import gmap strings list fin_maps.


(** ** The functions of Go's [strings] package the code calls *)

Module GoStrings.

(** [s[n:]] for [n <= len(s)]. *)
Fixpoint drop (n : nat) (s : string) : string :=
  match n, s with
  | S n', String _ s' => drop n' s'
  | _, _ => s
  end.

(** [s[:n]] for [n <= len(s)]. *)
Fixpoint take (n : nat) (s : string) : string :=
  match n, s with
  | S n', String c s' => String c (take n' s')
  | _, _ => EmptyString
  end.

(** [strings.HasPrefix(s, prefix)]. *)
Fixpoint HasPrefix (s prefix : string) {struct prefix} : bool :=
  match prefix with
  | EmptyString => true
  | String p prefix' =>
      match s with
      | EmptyString => false
      | String c s' => if decide (c = p) then HasPrefix s' prefix' else false
      end
  end.

(** [strings.HasSuffix(s, suffix)]:
    [len(s) >= len(suffix) && s[len(s)-len(suffix):] == suffix]. *)
Definition HasSuffix (s suffix : string) : bool :=
  bool_decide (String.length suffix ≤ String.length s)%nat
  && bool_decide (drop (String.length s - String.length suffix) s = suffix).

(** [strings.TrimSuffix(s, suffix)]: at most one copy is removed. *)
Definition TrimSuffix (s suffix : string) : string :=
  if HasSuffix s suffix
  then take (String.length s - String.length suffix) s
  else s.

(** [strings.Index(s, substr)]: the position of the first instance of
    [substr] in [s]; [None] is Go's [-1]. *)
Fixpoint Index (s substr : string) : option nat :=
  if HasPrefix s substr then Some 0
  else match s with
       | EmptyString => None
       | String _ s' => S <$> Index s' substr
       end.

(** The pieces of [s] when the separator is empty, one per byte: this
    is the library's result on ASCII strings only (it cuts after each
    UTF-8 sequence). The case is never reached from the code, whose
    separator is the formatted take-along prefix, and no statement below
    depends on it. *)
Fixpoint explode (s : string) : list string :=
  match s with
  | EmptyString => []
  | String c s' => String c EmptyString :: explode s'
  end.

(** The loop of the library's [genSplit]: cut at the first instance of
    [sep], continue after it, stop when [Index] fails.  [n] bounds the
    number of cuts; the library uses [Count(s, sep)], which is at most
    [len(s)]. *)
Fixpoint genSplit (n : nat) (s sep : string) : list string :=
  match n with
  | 0 => [s]
  | S n' =>
      match Index s sep with
      | None => [s]
      | Some m => take m s :: genSplit n' (drop (m + String.length sep) s) sep
      end
  end.

(** [strings.Split(s, sep)]. *)
Definition Split (s sep : string) : list string :=
  match sep with
  | EmptyString => explode s
  | _ => genSplit (String.length s) s sep
  end.

End GoStrings.

Import GoStrings.

(** ** Constants and the metadata kinds *)

Definition metaAnnotations : Z := 0.
Definition metaLabels : Z := 1.

(** [fmt.Sprintf(clusterTakeAlongKeyFmt, kind)] with
    [clusterTakeAlongKeyFmt = "take-along-%s.capi-to-argocd."]. *)
Definition clusterTakeAlongKeyFmt (kind : string) : string :=
  "take-along-" +:+ kind +:+ ".capi-to-argocd.".

(** [fmt.Sprintf(clusterTakenFromClusterKeyFmt, kind)] with
    [clusterTakenFromClusterKeyFmt = "taken-from-cluster-%s.capi-to-argocd."]. *)
Definition clusterTakenFromClusterKeyFmt (kind : string) : string :=
  "taken-from-cluster-" +:+ kind +:+ ".capi-to-argocd.".

Record MetaType := mkMetaType {
  mtName : string;
  mtTakeAlong : string;
  mtTakenFrom : string
}.

Definition GetMetaType (metaType : Z) : MetaType :=
  let name :=
    if decide (metaType = metaAnnotations) then "annotation"
    else if decide (metaType = metaLabels) then "label"
    else EmptyString in
  {| mtName := name;
     mtTakeAlong := clusterTakeAlongKeyFmt name;
     mtTakenFrom := clusterTakenFromClusterKeyFmt name |}.

Definition GetArgoCommonLabels : gmap string string :=
  <["argocd.argoproj.io/secret-type" := "cluster"]>
    (<["capi-to-argocd/owned" := "true"]> ∅).

(** ** extractTakeAlongMeta *)

(** The text of the error of [extractTakeAlongMeta]. *)
Definition malformedKeyError (metaType key : string) : string :=
  "invalid take-along " +:+ metaType +:+ ". missing key after '/': " +:+ key.

Definition extractTakeAlongMeta (metaType key : string) : string * option string :=
  let takeAlong := clusterTakeAlongKeyFmt metaType in
  if HasPrefix key takeAlong then
    let splitResult := Split key takeAlong in
    if decide (2 ≤ length splitResult)%nat then
      if decide (default EmptyString (splitResult !! 1) ≠ EmptyString)
      then (default EmptyString (splitResult !! 1), None)
      else (EmptyString, Some (malformedKeyError metaType key))
    else (EmptyString, Some (malformedKeyError metaType key))
  else (EmptyString, None).

(** ** Kubernetes objects, as far as the code reads or writes them *)

(** A Go map value: [nil] or an allocated map. Reading, [len] and
    [range] treat [nil] as the empty map: [entries]. *)
Inductive GoMap :=
  | NilMap
  | MkMap (m : gmap string string).

Definition entries (m : GoMap) : gmap string string :=
  match m with
  | NilMap => ∅
  | MkMap m => m
  end.

(** [clusterv1.Cluster]: the fields of its ObjectMeta the code reads. *)
Record Cluster := mkCluster {
  clName : string;
  clNamespace : string;
  clLabels : gmap string string;
  clAnnotations : gmap string string
}.

(** [corev1.Secret]: TypeMeta, the ObjectMeta fields used, and Data
    (byte slices are strings). *)
Record Secret := mkSecret {
  secKind : string;
  secAPIVersion : string;
  secName : string;
  secNamespace : string;
  secLabels : gmap string string;
  secData : gmap string string
}.

Record NamespacedName := mkNamespacedName {
  nnNamespace : string;
  nnName : string
}.

(** Modelled from the spec: the declarations of [CapiCluster] and of its
    [KubeConfig] are in another file of the package. The spec's
    ClusterIdentity is a kubeconfig with listed clusters and listed
    users, of which the first entries are read; the fields below are the
    ones [NewArgoCluster] selects, with the types its uses impose
    ([CaData] has its address taken, so it is a string; the user's
    fields are assigned to [*string] fields). *)
Record KubeCluster := mkKubeCluster {
  kcServer : string;
  kcCaData : string
}.

Record NamedCluster := mkNamedCluster {
  ncName : string;
  ncCluster : KubeCluster
}.

Record KubeUser := mkKubeUser {
  kuToken : option string;
  kuCertData : option string;
  kuKeyData : option string
}.

Record NamedUser := mkNamedUser {
  nuUser : KubeUser
}.

Record KubeConfig := mkKubeConfig {
  Clusters : list NamedCluster;
  Users : list NamedUser
}.

Record CapiCluster := mkCapiCluster {
  capiName : string;
  capiNamespace : string;
  capiKubeConfig : KubeConfig
}.

(** The process-wide configuration the code reads: [ArgoNamespace]
    (declared in this file) and [EnableNamespacedNames] (declared
    elsewhere in the package; a boolean toggle). *)
Record Config := mkConfig {
  ArgoNamespace : string;
  EnableNamespacedNames : bool
}.

(** ** The transfer object *)

Record ArgoTLS := mkArgoTLS {
  CaData : option string;
  CertData : option string;
  KeyData : option string
}.

Record ArgoConfig := mkArgoConfig {
  TLSClientConfig : option ArgoTLS;
  BearerToken : option string
}.

Record ArgoCluster := mkArgoCluster {
  acNamespacedName : NamespacedName;
  acClusterName : string;
  acClusterServer : string;
  acClusterLabels : gmap string string;
  acTakeAlongAnnotations : GoMap;
  acTakeAlongLabels : GoMap;
  acClusterConfig : ArgoConfig
}.

(** What a call does: it returns a value and an error, or it panics. *)
Inductive outcome (A : Type) :=
  | Returned (a : A) (err : option string)
  | Panicked.
Arguments Returned {A} a err.
Arguments Panicked {A}.

(** ** buildTakeAlongArray *)

(** The text of the warning for a take-along key whose target is not on
    the resource. *)
Definition missingTargetWarning (kind key name namespace : string) : string :=
  "take-along " +:+ kind +:+ " '" +:+ key +:+ "' not found on cluster resource: "
    +:+ name +:+ ", namespace: " +:+ namespace +:+ ". Ignoring".

(** The first loop, [for k := range meta], over the keys in the order
    the runtime visits them. [inr e] is the early return with error [e],
    [inl a] the array once every key has been seen. *)
Fixpoint scanTakeAlong (kind : string) (order : list string)
    (takeAlongArray : list string) : list string + string :=
  match order with
  | [] => inl takeAlongArray
  | k :: order' =>
      match extractTakeAlongMeta kind k with
      | (_, Some e) => inr e
      | (l, None) =>
          if decide (l ≠ EmptyString)
          then scanTakeAlong kind order' (takeAlongArray ++ [l])
          else scanTakeAlong kind order' takeAlongArray
      end
  end.

(** The second loop, [for _, key := range takeAlongArray]. *)
Fixpoint copyTakeAlong (metaName : MetaType) (name namespace : string)
    (meta : gmap string string) (takeAlongArray : list string)
    (takeAlongMap : gmap string string) (errors : list string)
    : gmap string string * list string :=
  match takeAlongArray with
  | [] => (takeAlongMap, errors)
  | key :: rest =>
      if decide (key ≠ EmptyString) then
        match meta !! key with
        | None =>
            copyTakeAlong metaName name namespace meta rest takeAlongMap
              (errors ++ [missingTargetWarning (mtName metaName) key name namespace])
        | Some v =>
            copyTakeAlong metaName name namespace meta rest
              (<[mtTakenFrom metaName +:+ key := EmptyString]>
                 (<[key := v]> takeAlongMap))
              errors
        end
      else copyTakeAlong metaName name namespace meta rest takeAlongMap errors
  end.

(** The body of [buildTakeAlongArray] once [meta] is selected. *)
Definition collectTakeAlong (metaName : MetaType) (name namespace : string)
    (meta : gmap string string) (order : list string) : GoMap * list string :=
  match scanTakeAlong (mtName metaName) order [] with
  | inr e => (NilMap, [e])
  | inl takeAlongArray =>
      if decide (0 < length takeAlongArray)%nat then
        let '(takeAlongMap, errors) :=
          copyTakeAlong metaName name namespace meta takeAlongArray ∅ [] in
        (MkMap takeAlongMap, errors)
      else (MkMap ∅, [])
  end.

(** [order] is the order in which [range] visits the keys of the
    selected metadata map. *)
Definition buildTakeAlongArray (order : list string) (cluster : Cluster)
    (metaType : Z) : GoMap * list string :=
  let name := clName cluster in
  let namespace := clNamespace cluster in
  let metaName := GetMetaType metaType in
  if decide (metaType = metaAnnotations) then
    collectTakeAlong metaName name namespace (clAnnotations cluster) order
  else if decide (metaType = metaLabels) then
    collectTakeAlong metaName name namespace (clLabels cluster) order
  else (MkMap ∅, []).

(** The orders in which a [range] may visit a map. *)
Definition keyOrder (m : gmap string string) (order : list string) : Prop :=
  order ≡ₚ (map_to_list m).*1.

Definition entryOrder (m : gmap string string) (order : list (string * string)) : Prop :=
  order ≡ₚ map_to_list m.

(** ** BuildClusterName, BuildNamespacedName *)

Definition BuildClusterName (cfg : Config) (s namespace : string) : string :=
  let prefix := EmptyString in
  let prefix :=
    if EnableNamespacedNames cfg then prefix +:+ (namespace +:+ "-") else prefix in
  prefix +:+ s.

Definition BuildNamespacedName (cfg : Config) (s namespace : string) : NamespacedName :=
  {| nnName := "cluster-" +:+ BuildClusterName cfg (TrimSuffix s "-kubeconfig") namespace;
     nnNamespace := ArgoNamespace cfg |}.

(** ** NewArgoCluster *)

(** The result is the lines passed to [log.Info], in order, and the
    outcome of the call. [labelOrder] and [annotationOrder] are the
    orders of the two [range] loops. The three parameters are pointers:
    [cluster] is tested against nil; [s] and [c] are not, and the
    returned literal reads [s.ObjectMeta.Name] and then
    [c.KubeConfig.Clusters[0]], so a nil [s] or [c] panics there, after
    the logging. *)
Definition NewArgoCluster (cfg : Config) (labelOrder annotationOrder : list string)
    (c : option CapiCluster) (s : option Secret) (cluster : option Cluster)
    : list string * outcome ArgoCluster :=
  let '(takeAlongLabels, errList1) :=
    match cluster with
    | Some cl => buildTakeAlongArray labelOrder cl metaLabels
    | None => (MkMap ∅, [])
    end in
  let '(takeAlongAnnotations, errList2) :=
    match cluster with
    | Some cl => buildTakeAlongArray annotationOrder cl metaAnnotations
    | None => (MkMap ∅, [])
    end in
  (errList1 ++ errList2,
   match s, c with
   | Some s, Some c =>
       match Clusters (capiKubeConfig c) !! 0%nat,
             Users (capiKubeConfig c) !! 0%nat with
       | Some cluster0, Some user0 =>
           Returned
             {| acNamespacedName :=
                  BuildNamespacedName cfg (secName s) (secNamespace s);
                acClusterName :=
                  BuildClusterName cfg (ncName cluster0) (secNamespace s);
                acClusterServer := kcServer (ncCluster cluster0);
                acClusterLabels :=
                  <["capi-to-argocd/cluster-namespace" := capiNamespace c]>
                    (<["capi-to-argocd/cluster-secret-name"
                         := capiName c +:+ "-kubeconfig"]> ∅);
                acTakeAlongAnnotations := takeAlongAnnotations;
                acTakeAlongLabels := takeAlongLabels;
                acClusterConfig :=
                  {| BearerToken := kuToken (nuUser user0);
                     TLSClientConfig :=
                       Some {| CaData := Some (kcCaData (ncCluster cluster0));
                               CertData := kuCertData (nuUser user0);
                               KeyData := kuKeyData (nuUser user0) |} |} |}
             None
       | _, _ => Panicked
       end
   | _, _ => Panicked
   end).

(** ** json.Marshal of ArgoConfig *)

(** The JSON values [json.Marshal] builds for the two structs: strings
    and objects whose fields are in declaration order. *)
#[warnings="-register-all"]
Inductive json :=
  | JString (s : string)
  | JObject (fields : list (string * json)).

(** A field tagged [omitempty] whose Go value is a pointer: left out
    when the pointer is nil. *)
Definition omitempty (name : string) (v : option json) : list (string * json) :=
  match v with
  | Some j => [(name, j)]
  | None => []
  end.

Definition marshalArgoTLS (t : ArgoTLS) : json :=
  JObject (omitempty "caData" (JString <$> CaData t)
           ++ omitempty "certData" (JString <$> CertData t)
           ++ omitempty "keyData" (JString <$> KeyData t)).

Definition marshalArgoConfig (c : ArgoConfig) : json :=
  JObject (omitempty "tlsClientConfig" (marshalArgoTLS <$> TLSClientConfig c)
           ++ omitempty "bearerToken" (JString <$> BearerToken c)).

Definition dquote : string := String (Ascii.ascii_of_nat 34) EmptyString.

Section Encoding.

(** The encoder of a Go string as a JSON string literal (quotes and
    escapes); it belongs to encoding/json. *)
Variable quote : string → string.

(** The bytes of a JSON value, as [json.Marshal] writes them: no
    white space, fields separated by commas. *)
Fixpoint render (j : json) : string :=
  match j with
  | JString s => quote s
  | JObject fields =>
      let fix members (first : bool) (fs : list (string * json)) : string :=
        match fs with
        | [] => EmptyString
        | (k, v) :: fs' =>
            (if first then EmptyString else ",")
              +:+ dquote +:+ k +:+ dquote +:+ ":" +:+ render v
              +:+ members false fs'
        end in
      "{" +:+ members true fields +:+ "}"
  end.

(** [json.Marshal(a.ClusterConfig)]; it has no failing case for these
    two structs. *)
Definition jsonMarshal (c : ArgoConfig) : string * option string :=
  (render (marshalArgoConfig c), None).

(** ** ConvertToSecret *)

(** [for key, value := range src { dst[key] = value }], the entries
    of [src] visited in [order]. *)
Definition rangeInsert (order : list (string * string))
    (dst : gmap string string) : gmap string string :=
  foldl (λ acc kv, <[kv.1 := kv.2]> acc) dst order.

Definition ConvertToSecret (commonOrder clusterOrder takeAlongOrder : list (string * string))
    (a : ArgoCluster) : option Secret * option string :=
  match jsonMarshal (acClusterConfig a) with
  | (_, Some err) => (None, Some err)
  | (c, None) =>
      let mergedLabels := ∅ in
      let mergedLabels := rangeInsert commonOrder mergedLabels in
      let mergedLabels := rangeInsert clusterOrder mergedLabels in
      let mergedLabels := rangeInsert takeAlongOrder mergedLabels in
      (Some {| secKind := "Secret";
               secAPIVersion := "v1";
               secName := nnName (acNamespacedName a);
               secNamespace := nnNamespace (acNamespacedName a);
               secLabels := mergedLabels;
               secData :=
                 <["config" := c]>
                   (<["server" := acClusterServer a]>
                      (<["name" := acClusterName a]> ∅)) |},
       None)
  end.

End Encoding.

(** ** Notions used in the statements *)

(** The first piece of [strings.Split(r, p)]: [r] up to the first
    instance of [p], all of [r] when there is none. *)
Definition firstPiece (r p : string) : string :=
  match Index r p with
  | Some m => take m r
  | None => r
  end.

(** The metadata map [buildTakeAlongArray] selects for a kind. *)
Definition metaOf (cluster : Cluster) (metaType : Z) : gmap string string :=
  if decide (metaType = metaAnnotations) then clAnnotations cluster
  else clLabels cluster.

(** The target the extractor gives for a key (empty: none). *)
Definition target (kind key : string) : string :=
  (extractTakeAlongMeta kind key).1.

(** The keys that are take-along requests, in visiting order. *)
Definition takeAlongKeys (kind : string) (order : list string) : list string :=
  filter (λ k, target kind k ≠ EmptyString) order.




(** ** Concrete resources *)

Module Examples.

Definition cfg : Config := mkConfig "argocd" false.

(** Labels with the bare take-along prefix next to a valid request. *)
Definition malformedLabels : gmap string string :=
  <["take-along-label.capi-to-argocd." := "y"]>
    (<["take-along-label.capi-to-argocd.foo" := "x"]>
       (<["foo" := "v"]> ∅)).

Definition malformedCluster : Cluster :=
  mkCluster "c1" "ns1" malformedLabels ∅.

(** Labels with one request whose target is there. *)
Definition siblingLabels : gmap string string :=
  <["take-along-label.capi-to-argocd.foo" := "x"]>
    (<["foo" := "v"]> (<["env" := "dev"]> ∅)).

Definition siblingCluster : Cluster :=
  mkCluster "c1" "ns1" siblingLabels ∅.

(** Labels with one request whose target is missing and one whose
    target is there. *)
Definition missingLabels : gmap string string :=
  <["take-along-label.capi-to-argocd.missing" := "y"]>
    (<["take-along-label.capi-to-argocd.foo" := "x"]>
       (<["foo" := "v"]> ∅)).

Definition missingCluster : Cluster :=
  mkCluster "c1" "ns1" missingLabels ∅.

Definition kubeconfig : KubeConfig :=
  mkKubeConfig
    [mkNamedCluster "prod" (mkKubeCluster "https://prod:6443" "Q0E=")]
    [mkNamedUser (mkKubeUser None (Some "Q1JU") (Some "S0VZ"))].

Definition capi : CapiCluster := mkCapiCluster "prod" "team-a" kubeconfig.

Definition source : Secret :=
  mkSecret "Secret" "v1" "prod-kubeconfig" "team-a" ∅ ∅.

(** A transfer object whose take-along labels collide with a static
    common label. *)
Definition colliding : ArgoCluster :=
  {| acNamespacedName := mkNamespacedName "argocd" "cluster-prod";
     acClusterName := "prod";
     acClusterServer := "https://prod:6443";
     acClusterLabels :=
       <["capi-to-argocd/cluster-namespace" := "team-a"]>
         (<["capi-to-argocd/cluster-secret-name" := "prod-kubeconfig"]> ∅);
     acTakeAlongAnnotations := MkMap ∅;
     acTakeAlongLabels := MkMap (<["capi-to-argocd/owned" := "taken"]> ∅);
     acClusterConfig := mkArgoConfig None (Some "token") |}.

(** A stand-in for the string encoder: quotes, no escapes. *)
Definition plainQuote (s : string) : string := dquote +:+ s +:+ dquote.

End Examples.

(** ** More concrete resources *)

Module MoreExamples.

(** Labels without any take-along request. *)
Definition plainLabels : gmap string string :=
  <["env" := "dev"]> (<["tier" := "web"]> ∅).

Definition plainCluster : Cluster := mkCluster "c1" "ns1" plainLabels ∅.

(** Labels asking for a label and for the marker of that label. *)
Definition markerLabels : gmap string string :=
  <["take-along-label.capi-to-argocd.x/bar" := "y"]>
    (<["x/bar" := "b"]>
       (<["take-along-label.capi-to-argocd.taken-from-cluster-label.capi-to-argocd.x/bar" := "y"]>
          (<["taken-from-cluster-label.capi-to-argocd.x/bar" := "z"]> ∅))).

Definition markerCluster : Cluster := mkCluster "c1" "ns1" markerLabels ∅.

Definition markerOrder1 : list string :=
  ["take-along-label.capi-to-argocd.x/bar"; "x/bar";
   "take-along-label.capi-to-argocd.taken-from-cluster-label.capi-to-argocd.x/bar";
   "taken-from-cluster-label.capi-to-argocd.x/bar"].

Definition markerOrder2 : list string :=
  ["take-along-label.capi-to-argocd.taken-from-cluster-label.capi-to-argocd.x/bar";
   "x/bar"; "take-along-label.capi-to-argocd.x/bar";
   "taken-from-cluster-label.capi-to-argocd.x/bar"].




(** Labels with a request whose remainder holds the prefix again, next
    to a request for a missing label. *)
Definition repeatedLabels : gmap string string :=
  <["take-along-label.capi-to-argocd.take-along-label.capi-to-argocd.x" := "y"]>
    (<["take-along-label.capi-to-argocd.missing" := "y"]> ∅).

Definition repeatedCluster : Cluster := mkCluster "c1" "ns1" repeatedLabels ∅.

End MoreExamples.

(** * Properties *)

(** ** Strings *)

Section StringFacts.

Lemma app_nil_l (b : string) : EmptyString +:+ b = b.
Proof. reflexivity. Qed.

Lemma app_cons (c : Ascii.ascii) (a b : string) :
  String c a +:+ b = String c (a +:+ b).
Proof. reflexivity. Qed.

Lemma length_app (a b : string) :
  String.length (a +:+ b) = (String.length a + String.length b)%nat.
Proof.
  induction a as [|c a IH]; [done |].
  rewrite app_cons. simpl. by rewrite IH.
Qed.

Lemma app_empty_r (a : string) : a +:+ EmptyString = a.
Proof.
  induction a as [|c a IH]; [done |]. by rewrite app_cons, IH.
Qed.

Lemma app_assoc_str (a b c : string) : (a +:+ b) +:+ c = a +:+ (b +:+ c).
Proof.
  induction a as [|x a IH]; [done |]. by rewrite !app_cons, IH.
Qed.

Lemma drop_app (p r : string) : drop (String.length p) (p +:+ r) = r.
Proof.
  induction p as [|c p IH]; [by destruct r |]. by rewrite app_cons.
Qed.

Lemma take_app (p r : string) : take (String.length p) (p +:+ r) = p.
Proof.
  induction p as [|c p IH]; [by destruct r |].
  rewrite app_cons. simpl. by rewrite IH.
Qed.

Lemma take_drop (n : nat) (s : string) : take n s +:+ drop n s = s.
Proof.
  revert s; induction n as [|n IH]; intros [|c s]; simpl; try done.
  rewrite app_cons. f_equal. apply IH.
Qed.

Lemma length_drop (n : nat) (s : string) :
  String.length (drop n s) = (String.length s - n)%nat.
Proof.
  revert s; induction n as [|n IH]; intros [|c s]; simpl; try done.
Qed.

Lemma HasPrefix_app (p r : string) : HasPrefix (p +:+ r) p = true.
Proof.
  induction p as [|c p IH]; [reflexivity |].
  rewrite app_cons. simpl. by rewrite decide_True by done.
Qed.

Lemma HasPrefix_inv (s p : string) :
  HasPrefix s p = true → s = p +:+ drop (String.length p) s.
Proof.
  revert s; induction p as [|c p IH]; intros s H; simpl in *.
  - by destruct s.
  - destruct s as [|d s]; [done |].
    case_decide; [subst | done]. rewrite app_cons. f_equal. by apply IH.
Qed.

Lemma HasPrefix_spec (s p : string) :
  HasPrefix s p = true ↔ ∃ r, s = p +:+ r.
Proof.
  split.
  - intros H. eexists. by apply HasPrefix_inv.
  - intros [r ->]. apply HasPrefix_app.
Qed.

Lemma HasPrefix_length (s p : string) :
  HasPrefix s p = true → (String.length p ≤ String.length s)%nat.
Proof.
  intros H. rewrite (HasPrefix_inv _ _ H), length_app. lia.
Qed.

Lemma HasSuffix_spec (s suffix : string) :
  HasSuffix s suffix = true ↔ ∃ b, s = b +:+ suffix.
Proof.
  unfold HasSuffix. rewrite andb_true_iff, !bool_decide_eq_true. split.
  - intros [_ H]. exists (take (String.length s - String.length suffix) s).
    transitivity (take (String.length s - String.length suffix) s
                  +:+ drop (String.length s - String.length suffix) s).
    + symmetry. apply take_drop.
    + by rewrite H.
  - intros [b ->]. rewrite length_app. split; [lia |].
    replace (String.length b + String.length suffix - String.length suffix)%nat
      with (String.length b) by lia.
    apply drop_app.
Qed.

Lemma TrimSuffix_app (b suffix : string) : TrimSuffix (b +:+ suffix) suffix = b.
Proof.
  unfold TrimSuffix.
  rewrite (proj2 (HasSuffix_spec _ _)) by eauto.
  rewrite length_app.
  replace (String.length b + String.length suffix - String.length suffix)%nat
    with (String.length b) by lia.
  apply take_app.
Qed.

Lemma TrimSuffix_none (s suffix : string) :
  (∀ b, s ≠ b +:+ suffix) → TrimSuffix s suffix = s.
Proof.
  intros H. unfold TrimSuffix.
  destruct (HasSuffix s suffix) eqn:E; [| done].
  apply HasSuffix_spec in E as [b ->]. by destruct (H b).
Qed.

Lemma Index_unfold (s substr : string) :
  Index s substr =
    if HasPrefix s substr then Some 0%nat
    else match s with
         | EmptyString => None
         | String _ s' => S <$> Index s' substr
         end.
Proof. by destruct s. Qed.

Lemma Index_prefix (s substr : string) :
  HasPrefix s substr = true → Index s substr = Some 0%nat.
Proof. intros H. by rewrite Index_unfold, H. Qed.

Lemma Index_empty (substr : string) :
  substr ≠ EmptyString → Index EmptyString substr = None.
Proof. by destruct substr. Qed.

(** An instance found by [Index] lies inside the string. *)
Lemma Index_bound (s substr : string) (m : nat) :
  Index s substr = Some m → (m + String.length substr ≤ String.length s)%nat.
Proof.
  revert m; induction s as [|c s IH]; intros m; rewrite Index_unfold.
  - destruct (HasPrefix EmptyString substr) eqn:E; [| done].
    intros [= <-]. by apply HasPrefix_length in E.
  - destruct (HasPrefix (String c s) substr) eqn:E.
    + intros [= <-]. by apply HasPrefix_length in E.
    + destruct (Index s substr) as [m'|]; [| done].
      intros [= <-]. specialize (IH m' eq_refl). simpl. lia.
Qed.

(** The bound on the number of cuts: once it is at least [len(s)],
    the loop of [genSplit] stops by itself. *)
Lemma genSplit_fuel (sep : string) (n : nat) (s : string) :
  sep ≠ EmptyString → (String.length s ≤ n)%nat →
  genSplit n s sep = genSplit (String.length s) s sep.
Proof.
  intros Hsep. revert s.
  induction (lt_wf n) as [n _ IH]. intros s Hn.
  destruct n as [|n].
  { by replace (String.length s) with 0%nat by lia. }
  simpl. destruct (Index s sep) as [m|] eqn:E.
  - pose proof (Index_bound _ _ _ E) as Hb.
    assert (0 < String.length sep)%nat by (destruct sep; [done | simpl; lia]).
    destruct (String.length s) as [|k] eqn:Hk; [lia |].
    simpl. rewrite E. f_equal.
    pose proof (length_drop (m + String.length sep) s) as Hd.
    rewrite (IH n) by lia. rewrite (IH k) by lia. done.
  - destruct (String.length s); simpl; [done | by rewrite E].
Qed.

Lemma Split_nonempty_sep (s sep : string) :
  sep ≠ EmptyString → Split s sep = genSplit (String.length s) s sep.
Proof. by destruct sep. Qed.

(** Splitting a string that starts with the separator: an empty first
    piece, then the pieces of the rest. *)
Lemma Split_prefix (p r : string) :
  p ≠ EmptyString → Split (p +:+ r) p = EmptyString :: Split r p.
Proof.
  intros Hp. rewrite !Split_nonempty_sep by done.
  assert (0 < String.length p)%nat by (destruct p; [done | simpl; lia]).
  rewrite length_app.
  destruct (String.length p + String.length r)%nat as [|n] eqn:Hn; [lia |].
  simpl. rewrite Index_prefix by apply HasPrefix_app.
  simpl. rewrite drop_app. f_equal. apply genSplit_fuel; [done | lia].
Qed.

(** The first piece of a split. *)
Lemma Split_head (r p : string) :
  p ≠ EmptyString →
  Split r p !! 0%nat =
    Some (match Index r p with Some m => take m r | None => r end).
Proof.
  intros Hp. rewrite Split_nonempty_sep by done.
  destruct (String.length r) as [|n] eqn:Hn; simpl.
  - destruct r; [| done]. by rewrite Index_empty.
  - by destruct (Index r p).
Qed.

End StringFacts.

(** ** extractTakeAlongMeta *)

Section ExtractFacts.

Lemma takeAlong_nonempty (kind : string) :
  clusterTakeAlongKeyFmt kind ≠ EmptyString.
Proof. intros H. discriminate H. Qed.

(** On a key that starts with the take-along prefix, the code looks at
    the second piece of the split, which is the first piece of the
    remainder. *)
Lemma extractTakeAlongMeta_prefix (kind r : string) :
  extractTakeAlongMeta kind (clusterTakeAlongKeyFmt kind +:+ r) =
    if decide (firstPiece r (clusterTakeAlongKeyFmt kind) ≠ EmptyString)
    then (firstPiece r (clusterTakeAlongKeyFmt kind), None)
    else (EmptyString,
          Some (malformedKeyError kind (clusterTakeAlongKeyFmt kind +:+ r))).
Proof.
  unfold extractTakeAlongMeta.
  rewrite HasPrefix_app, Split_prefix by apply takeAlong_nonempty.
  pose proof (Split_head r _ (takeAlong_nonempty kind)) as Hh.
  fold (firstPiece r (clusterTakeAlongKeyFmt kind)) in Hh.
  destruct (Split r (clusterTakeAlongKeyFmt kind)) as [|t ts]; [done |].
  simpl in Hh. injection Hh as ->. done.
Qed.

Lemma extractTakeAlongMeta_other (kind key : string) :
  HasPrefix key (clusterTakeAlongKeyFmt kind) = false →
  extractTakeAlongMeta kind key = (EmptyString, None).
Proof. intros H. unfold extractTakeAlongMeta. by rewrite H. Qed.

(** The key that is exactly the prefix is rejected. *)
Lemma extractTakeAlongMeta_bare_prefix (kind : string) :
  extractTakeAlongMeta kind (clusterTakeAlongKeyFmt kind) =
    (EmptyString, Some (malformedKeyError kind (clusterTakeAlongKeyFmt kind))).
Proof.
  rewrite <- (app_empty_r (clusterTakeAlongKeyFmt kind)) at 1.
  rewrite extractTakeAlongMeta_prefix, app_empty_r.
  unfold firstPiece. rewrite Index_empty by apply takeAlong_nonempty.
  by rewrite decide_False by (by intros H; apply H).
Qed.

(** The two shapes of a result: a target without error, or the error
    for this key without target. *)
Lemma extractTakeAlongMeta_shape (kind key : string) :
  (∃ t, extractTakeAlongMeta kind key = (t, None))
  ∨ (HasPrefix key (clusterTakeAlongKeyFmt kind) = true
     ∧ extractTakeAlongMeta kind key
       = (EmptyString, Some (malformedKeyError kind key))).
Proof.
  destruct (HasPrefix key (clusterTakeAlongKeyFmt kind)) eqn:E.
  - pose proof (extractTakeAlongMeta_prefix kind
      (drop (String.length (clusterTakeAlongKeyFmt kind)) key)) as Hp.
    rewrite <- (HasPrefix_inv _ _ E) in Hp. rewrite Hp.
    case_decide; eauto.
  - left. eexists. by apply extractTakeAlongMeta_other.
Qed.


End ExtractFacts.

(** C3 (the code departs from the claim). A key that starts with the
    take-along prefix and whose remainder is not empty does not always
    yield that remainder: [strings.Split] cuts at every instance of the
    prefix and the code returns the second piece only. On the label key
    [take-along-label.capi-to-argocd.a.take-along-label.capi-to-argocd.b/x]
    the remainder is [a.take-along-label.capi-to-argocd.b/x] and the
    code returns [a.]; on the prefix twice followed by [x] the remainder
    is not empty and the code returns the missing-key error. *)
Theorem extractTakeAlongMeta_repeated_prefix :
  let p := clusterTakeAlongKeyFmt "label" in
  let key := p +:+ "a." +:+ p +:+ "b/x" in
  HasPrefix key p = true
  ∧ drop (String.length p) key = "a.take-along-label.capi-to-argocd.b/x"
  ∧ extractTakeAlongMeta "label" key = ("a.", None)
  ∧ HasPrefix (p +:+ p +:+ "x") p = true
  ∧ drop (String.length p) (p +:+ p +:+ "x") = "take-along-label.capi-to-argocd.x"
  ∧ extractTakeAlongMeta "label" (p +:+ p +:+ "x")
    = (EmptyString, Some (malformedKeyError "label" (p +:+ p +:+ "x"))).
Proof. vm_compute. repeat split. Qed.

(** ** Names *)

Lemma BuildClusterName_cases (cfg : Config) (rawName namespace : string) :
  BuildClusterName cfg rawName namespace
    = (if EnableNamespacedNames cfg
       then namespace +:+ "-" +:+ rawName
       else rawName).
Proof.
  unfold BuildClusterName. destruct (EnableNamespacedNames cfg); [| done].
  by rewrite app_nil_l, app_assoc_str.
Qed.

(** C7. [BuildClusterName] returns [rawName] unchanged when the
    namespacing toggle is off and [namespace + "-" + rawName] when it is
    on; [BuildClusterName("prod", "team-a")] is ["prod"] when off and
    ["team-a-prod"] when on. *)
Theorem BuildClusterName_spec (cfg : Config) (rawName namespace : string) :
  BuildClusterName cfg rawName namespace
    = (if EnableNamespacedNames cfg
       then namespace +:+ "-" +:+ rawName
       else rawName)
  ∧ BuildClusterName (mkConfig (ArgoNamespace cfg) false) "prod" "team-a" = "prod"
  ∧ BuildClusterName (mkConfig (ArgoNamespace cfg) true) "prod" "team-a" = "team-a-prod".
Proof.
  split; [apply BuildClusterName_cases | by split].
Qed.

(** C6. [BuildNamespacedName(s, ns)] has the name ["cluster-"] followed
    by [BuildClusterName] of [s] without one trailing ["-kubeconfig"]:
    ["cluster-" + base] with the toggle off and
    ["cluster-" + ns + "-" + base] with it on, where [base] is [s]
    stripped (or [s] itself when it has no such suffix); its namespace is
    the configured [ArgoNamespace], whatever [ns] is. *)
Theorem BuildNamespacedName_spec (cfg : Config) (s ns : string) :
  nnName (BuildNamespacedName cfg s ns)
    = "cluster-" +:+ BuildClusterName cfg (TrimSuffix s "-kubeconfig") ns
  ∧ (∀ base, s = base +:+ "-kubeconfig" →
       nnName (BuildNamespacedName cfg s ns)
         = "cluster-" +:+ (if EnableNamespacedNames cfg
                           then ns +:+ "-" +:+ base else base))
  ∧ ((∀ base, s ≠ base +:+ "-kubeconfig") →
       nnName (BuildNamespacedName cfg s ns)
         = "cluster-" +:+ (if EnableNamespacedNames cfg
                           then ns +:+ "-" +:+ s else s))
  ∧ (∀ ns', nnNamespace (BuildNamespacedName cfg s ns') = ArgoNamespace cfg)
  ∧ BuildNamespacedName (mkConfig (ArgoNamespace cfg) false) "prod-kubeconfig" "team-a"
    = {| nnNamespace := ArgoNamespace cfg; nnName := "cluster-prod" |}
  ∧ TrimSuffix "prod-kubeconfig-kubeconfig" "-kubeconfig" = "prod-kubeconfig".
Proof.
  split; [done |]. split; [| split; [| split; [done | by split]]].
  - intros base ->. unfold BuildNamespacedName; simpl.
    rewrite TrimSuffix_app. by rewrite BuildClusterName_cases.
  - intros Hno. unfold BuildNamespacedName; simpl.
    rewrite TrimSuffix_none by done.
    by rewrite BuildClusterName_cases.
Qed.

(** ** The two loops of buildTakeAlongArray *)

Section RangeOrders.

Lemma keyOrder_elem (m : gmap string string) (order : list string) (k : string) :
  keyOrder m order → k ∈ order ↔ k ∈ dom m.
Proof.
  intros H. unfold keyOrder in H. rewrite H, elem_of_dom, list_elem_of_fmap.
  split.
  - intros [[k' v] [-> Hin]]. apply elem_of_map_to_list in Hin. by eexists.
  - intros [v Hv]. exists (k, v). split; [done |]. by apply elem_of_map_to_list.
Qed.

Lemma keyOrder_NoDup (m : gmap string string) (order : list string) :
  keyOrder m order → NoDup order.
Proof.
  intros H. unfold keyOrder in H. rewrite H. apply NoDup_fst_map_to_list.
Qed.

Lemma keyOrder_canonical (m : gmap string string) :
  keyOrder m (map_to_list m).*1.
Proof. unfold keyOrder. reflexivity. Qed.

Lemma entryOrder_canonical (m : gmap string string) :
  entryOrder m (map_to_list m).
Proof. unfold entryOrder. reflexivity. Qed.

End RangeOrders.

Section ScanFacts.

Variable kind : string.

Lemma takeAlongKeys_cons (k : string) (order : list string) :
  takeAlongKeys kind (k :: order) =
    if decide (target kind k ≠ EmptyString)
    then k :: takeAlongKeys kind order
    else takeAlongKeys kind order.
Proof.
  unfold takeAlongKeys. case_decide.
  - by apply (filter_cons_True (λ k0, target kind k0 ≠ EmptyString)).
  - apply (filter_cons_False (λ k0, target kind k0 ≠ EmptyString)).
    intros Hn. by apply Hn.
Qed.

(** Without a rejected key, the first loop collects the targets of the
    take-along keys, one per key, in visiting order. *)
Lemma scanTakeAlong_ok (order acc : list string) :
  (∀ k, k ∈ order → (extractTakeAlongMeta kind k).2 = None) →
  scanTakeAlong kind order acc
    = inl (acc ++ (target kind <$> takeAlongKeys kind order)).
Proof.
  revert acc. induction order as [|k order IH]; intros acc Hok.
  - simpl. by rewrite app_nil_r.
  - assert (extractTakeAlongMeta kind k = (target kind k, None)) as He.
    { pose proof (Hok k (list_elem_of_here _ _)) as Hk. unfold target.
      destruct (extractTakeAlongMeta kind k) as [l e]. simpl in *. by subst. }
    assert (∀ k', k' ∈ order →
              (extractTakeAlongMeta kind k').2 = None) as Hok'
      by (intros; apply Hok; by constructor).
    rewrite takeAlongKeys_cons. simpl. rewrite He.
    case_decide.
    + rewrite IH by done. by rewrite fmap_cons, <- app_assoc.
    + by rewrite IH.
Qed.

(** With a rejected key among those visited, the first loop returns
    early with the error of the first rejected key it meets. *)
Lemma scanTakeAlong_err (order acc : list string) :
  (∃ k, k ∈ order ∧ (extractTakeAlongMeta kind k).2 ≠ None) →
  ∃ k, k ∈ order
     ∧ HasPrefix k (clusterTakeAlongKeyFmt kind) = true
     ∧ extractTakeAlongMeta kind k
       = (EmptyString, Some (malformedKeyError kind k))
     ∧ scanTakeAlong kind order acc = inr (malformedKeyError kind k).
Proof.
  revert acc. induction order as [|k order IH]; intros acc [k0 [Hin Hbad]].
  - by apply elem_of_nil in Hin.
  - destruct (extractTakeAlongMeta_shape kind k) as [[t Ht] | [Hp He]].
    + assert (k0 ∈ order) as Hin'.
      { apply elem_of_cons in Hin as [-> | ?]; [| done].
        rewrite Ht in Hbad. by destruct Hbad. }
      simpl. rewrite Ht.
      case_decide.
      * destruct (IH (acc ++ [t])) as (k' & ? & ? & ? & ?); [by eauto |].
        exists k'. repeat split; try done. by constructor.
      * destruct (IH acc) as (k' & ? & ? & ? & ?); [by eauto |].
        exists k'. repeat split; try done. by constructor.
    + exists k. repeat split; try done; [by constructor |].
      simpl. by rewrite He.
Qed.

Lemma takeAlongKeys_none (order : list string) :
  (∀ k, k ∈ order → target kind k = EmptyString) →
  takeAlongKeys kind order = [].
Proof.
  induction order as [|k order IH]; intros H; [done |].
  rewrite takeAlongKeys_cons, decide_False.
  - apply IH. intros; apply H; by constructor.
  - intros Hk. apply Hk, H. by constructor.
Qed.

(** A single take-along key among keys visited once each. *)
Lemma takeAlongKeys_single (order : list string) (k0 : string) :
  NoDup order → k0 ∈ order →
  target kind k0 ≠ EmptyString →
  (∀ k, k ∈ order → k ≠ k0 → target kind k = EmptyString) →
  takeAlongKeys kind order = [k0].
Proof.
  induction order as [|k order IH]; intros Hnd Hin Ht Hothers.
  - by apply elem_of_nil in Hin.
  - apply NoDup_cons in Hnd as [Hk Hnd].
    rewrite takeAlongKeys_cons.
    assert (∀ k', k' ∈ order → k' ≠ k0 → target kind k' = EmptyString)
      as Hothers' by (intros; apply Hothers; [by constructor | done]).
    destruct (decide (k = k0)) as [-> | Hne].
    + rewrite decide_True by done. f_equal.
      apply takeAlongKeys_none. intros k' Hk'. apply Hothers'; [done |].
      by intros ->.
    + rewrite decide_False.
      * apply IH; try done. by apply elem_of_cons in Hin as [-> | ?].
      * intros Hk'. apply Hk', Hothers; [by constructor | done].
Qed.

End ScanFacts.

Section CopyFacts.

Variables (metaName : MetaType) (name namespace : string).
Variable meta : gmap string string.

Local Abbreviation copy := (copyTakeAlong metaName name namespace meta).
Local Abbreviation warn :=
  (λ t, missingTargetWarning (mtName metaName) t name namespace).
Local Abbreviation marker := (λ t, mtTakenFrom metaName +:+ t).

(** The warnings of the second loop: one for each array element whose
    target is not in the metadata, in order, after those already there. *)
Lemma copyTakeAlong_errors (arr : list string) (m : gmap string string)
    (errs : list string) :
  Forall (λ t, t ≠ EmptyString) arr →
  (copy arr m errs).2
    = errs ++ (warn <$> filter (λ t, meta !! t = None) arr).
Proof.
  revert m errs. induction arr as [|t arr IH]; intros m errs Hne.
  - simpl. by rewrite app_nil_r.
  - apply Forall_cons in Hne as [Ht Hne]. simpl.
    rewrite decide_True by done.
    destruct (meta !! t) as [v|] eqn:E.
    + rewrite IH by done. f_equal. f_equal.
      symmetry. apply (filter_cons_False (λ t, meta !! t = None)).
      by rewrite E.
    + rewrite IH by done.
      rewrite (filter_cons_True (λ t, meta !! t = None)) by done.
      by rewrite fmap_cons, <- app_assoc.
Qed.

(** The second loop only adds to the map. *)
Lemma copyTakeAlong_mono (arr : list string) (m : gmap string string)
    (errs : list string) (x : string) :
  is_Some (m !! x) → is_Some ((copy arr m errs).1 !! x).
Proof.
  revert m errs. induction arr as [|t arr IH]; intros m errs Hx; [done |].
  simpl. case_decide; [| by apply IH].
  destruct (meta !! t) as [v|]; [| by apply IH].
  apply IH. rewrite !lookup_insert. repeat case_decide; eauto.
Qed.

(** A target found in the metadata is in the map with its marker. *)
Lemma copyTakeAlong_present (arr : list string) (m : gmap string string)
    (errs : list string) (t : string) :
  Forall (λ t, t ≠ EmptyString) arr →
  t ∈ arr → is_Some (meta !! t) →
  is_Some ((copy arr m errs).1 !! t)
  ∧ is_Some ((copy arr m errs).1 !! marker t).
Proof.
  revert m errs. induction arr as [|u arr IH]; intros m errs Hne Hin [v Hv].
  - by apply elem_of_nil in Hin.
  - apply Forall_cons in Hne as [Hu Hne]. simpl.
    rewrite decide_True by done.
    destruct (decide (t = u)) as [<- | Htu].
    + rewrite Hv. split; apply copyTakeAlong_mono;
        rewrite !lookup_insert; repeat case_decide; first [done | by eexists].
    + apply elem_of_cons in Hin as [? | Hin]; [done |].
      destruct (meta !! u); apply IH; eauto.
Qed.

(** Where an entry of the resulting map comes from. *)
Lemma copyTakeAlong_sound (arr : list string) (m : gmap string string)
    (errs : list string) (x y : string) :
  (copy arr m errs).1 !! x = Some y →
  m !! x = Some y
  ∨ (x ∈ arr ∧ meta !! x = Some y)
  ∨ (∃ u, u ∈ arr ∧ is_Some (meta !! u) ∧ x = marker u ∧ y = EmptyString).
Proof.
  revert m errs. induction arr as [|u arr IH]; intros m errs Hx; [by left |].
  simpl in Hx. case_decide.
  - destruct (meta !! u) as [v|] eqn:E.
    + apply IH in Hx as [Hx | [[Hin Hx] | (u' & Hin & Hu' & -> & ->)]].
      * rewrite !lookup_insert in Hx. repeat case_decide; simplify_eq.
        -- right; right. exists u. rewrite E. repeat split; eauto.
           by constructor.
        -- right; left. split; [by constructor | done].
        -- by left.
      * right; left. split; [by constructor | done].
      * right; right. exists u'. repeat split; eauto. by constructor.
    + apply IH in Hx as [Hx | [[Hin Hx] | (u' & Hin & Hu' & -> & ->)]].
      * by left.
      * right; left. split; [by constructor | done].
      * right; right. exists u'. repeat split; eauto. by constructor.
  - apply IH in Hx as [Hx | [[Hin Hx] | (u' & Hin & Hu' & -> & ->)]].
    * by left.
    * right; left. split; [by constructor | done].
    * right; right. exists u'. repeat split; eauto. by constructor.
Qed.

(** Without an early return, [collectTakeAlong] is the second loop run
    on the array of the first, from the empty map and no warnings. *)
Lemma collectTakeAlong_ok (order arr : list string) :
  scanTakeAlong (mtName metaName) order [] = inl arr →
  collectTakeAlong metaName name namespace meta order
    = (MkMap (copy arr ∅ []).1, (copy arr ∅ []).2).
Proof.
  intros Hs. unfold collectTakeAlong. rewrite Hs.
  case_decide as Hl.
  - by destruct (copy arr ∅ []).
  - destruct arr; [done | simpl in Hl; lia].
Qed.

Lemma collectTakeAlong_err (order : list string) (e : string) :
  scanTakeAlong (mtName metaName) order [] = inr e →
  collectTakeAlong metaName name namespace meta order = (NilMap, [e]).
Proof. intros Hs. unfold collectTakeAlong. by rewrite Hs. Qed.

End CopyFacts.

Lemma buildTakeAlongArray_collect (order : list string) (cluster : Cluster)
    (metaType : Z) :
  metaType = metaLabels ∨ metaType = metaAnnotations →
  buildTakeAlongArray order cluster metaType
    = collectTakeAlong (GetMetaType metaType) (clName cluster)
        (clNamespace cluster) (metaOf cluster metaType) order.
Proof. by intros [-> | ->]. Qed.

Lemma takeAlongKeys_targets_nonempty (kind : string) (order : list string) :
  Forall (λ t, t ≠ EmptyString) (target kind <$> takeAlongKeys kind order).
Proof.
  apply Forall_fmap, Forall_forall. intros k Hk.
  unfold takeAlongKeys in Hk. by apply list_elem_of_filter in Hk as [? _].
Qed.


(** ** The collector *)


Section Collector.

Variables (cluster : Cluster) (metaType : Z) (order : list string).

Local Abbreviation kind := (mtName (GetMetaType metaType)).
Local Abbreviation meta := (metaOf cluster metaType).
Local Abbreviation marker := (λ t, mtTakenFrom (GetMetaType metaType) +:+ t).

(** C1. When the selected metadata map holds the bare take-along
    prefix as a key, [buildTakeAlongArray] returns the nil map (which
    has no entry, whatever other take-along keys are on the resource)
    and a list of exactly one message: the malformed-key error of a
    key of the map that the extractor rejects. *)
Theorem buildTakeAlongArray_malformed_key :
  metaType = metaLabels ∨ metaType = metaAnnotations →
  keyOrder meta order →
  mtTakeAlong (GetMetaType metaType) ∈ dom meta →
  ∃ k, k ∈ dom meta
     ∧ extractTakeAlongMeta kind k
       = (EmptyString, Some (malformedKeyError kind k))
     ∧ buildTakeAlongArray order cluster metaType
       = (NilMap, [malformedKeyError kind k])
     ∧ entries (buildTakeAlongArray order cluster metaType).1 = ∅
     ∧ length (buildTakeAlongArray order cluster metaType).2 = 1%nat.
Proof.
  intros Hmt Hord Hbare.
  destruct (scanTakeAlong_err kind order []) as (k & Hin & _ & He & Hs).
  { exists (clusterTakeAlongKeyFmt kind). split.
    - by apply (keyOrder_elem _ _ _ Hord).
    - by rewrite extractTakeAlongMeta_bare_prefix. }
  exists k. split; [by apply (keyOrder_elem _ _ _ Hord) |]. split; [done |].
  rewrite buildTakeAlongArray_collect by done.
  by rewrite (collectTakeAlong_err _ _ _ _ _ _ Hs).
Qed.



End Collector.


(** A request whose remainder holds the take-along prefix again can
    stop the scan although no key is the bare prefix (see
    [extractTakeAlongMeta_repeated_prefix]): nothing is copied and no
    missing-target warning is given. *)
Lemma buildTakeAlongArray_repeated_prefix_aborts :
  MoreExamples.repeatedLabels !! "take-along-label.capi-to-argocd." = None
  ∧ buildTakeAlongArray (map_to_list MoreExamples.repeatedLabels).*1
      MoreExamples.repeatedCluster metaLabels
    = (NilMap,
       [malformedKeyError "label"
          "take-along-label.capi-to-argocd.take-along-label.capi-to-argocd.x"]).
Proof. split; by vm_compute. Qed.

(** C2. For a cluster whose labels hold the key
    [take-along-label.capi-to-argocd.foo], the key [foo] with value [v]
    and no other key that starts with the label take-along prefix,
    [buildTakeAlongArray] for labels returns the map with exactly the two
    entries [foo] to [v] and
    [taken-from-cluster-label.capi-to-argocd.foo] to the empty string,
    and no warning. *)
Theorem buildTakeAlongArray_copies_sibling (cluster : Cluster)
    (order : list string) (v : string) :
  keyOrder (clLabels cluster) order →
  "take-along-label.capi-to-argocd.foo" ∈ dom (clLabels cluster) →
  clLabels cluster !! "foo" = Some v →
  (∀ k, k ∈ dom (clLabels cluster) →
        k ≠ "take-along-label.capi-to-argocd.foo" →
        HasPrefix k "take-along-label.capi-to-argocd." = false) →
  buildTakeAlongArray order cluster metaLabels
    = (MkMap (<["taken-from-cluster-label.capi-to-argocd.foo" := EmptyString]>
                (<["foo" := v]> ∅)),
       []).
Proof.
  intros Hord Hkey Hfoo Hothers.
  rewrite buildTakeAlongArray_collect by by left.
  change (metaOf cluster metaLabels) with (clLabels cluster).
  assert (extractTakeAlongMeta "label" "take-along-label.capi-to-argocd.foo"
            = ("foo", None)) as He0 by (by vm_compute).
  assert (∀ k, k ∈ order → k ≠ "take-along-label.capi-to-argocd.foo" →
               extractTakeAlongMeta "label" k = (EmptyString, None)) as He.
  { intros k Hk Hne. apply extractTakeAlongMeta_other, Hothers; [| done].
    by apply (keyOrder_elem _ _ _ Hord). }
  assert (scanTakeAlong "label" order [] = inl ["foo"]) as Hs.
  { rewrite scanTakeAlong_ok.
    - rewrite (takeAlongKeys_single "label" order
                 "take-along-label.capi-to-argocd.foo").
      + simpl. unfold target. by rewrite He0.
      + by apply (keyOrder_NoDup _ _ Hord).
      + by apply (keyOrder_elem _ _ _ Hord).
      + unfold target. by rewrite He0.
      + intros k Hk Hne. unfold target. by rewrite He.
    - intros k Hk.
      destruct (decide (k = "take-along-label.capi-to-argocd.foo")) as [-> | Hne].
      + by rewrite He0.
      + by rewrite He. }
  rewrite (collectTakeAlong_ok (GetMetaType metaLabels) _ _ _ order ["foo"] Hs).
  simpl. by rewrite Hfoo.
Qed.

(** ** Serialization of the configuration *)





(** ** Label merge *)

Lemma rangeInsert_list (l : list (string * string)) (dst : gmap string string) :
  NoDup l.*1 → rangeInsert l dst = list_to_map l ∪ dst.
Proof.
  revert dst. induction l as [|[k v] l IH]; intros dst Hnd.
  - simpl. by rewrite (left_id_L ∅ (∪)).
  - simpl in Hnd. apply NoDup_cons in Hnd as [Hk Hnd].
    unfold rangeInsert in *. simpl. rewrite IH by done.
    apply map_eq. intros i. rewrite !lookup_union, !lookup_insert.
    case_decide as Hi.
    + subst i. rewrite (not_elem_of_list_to_map_1 l k) by done.
      by destruct (dst !! k).
    + done.
Qed.

(** Copying the entries of [src] into [dst], in any visiting order,
    gives [src] over [dst]. *)
Lemma rangeInsert_union (src dst : gmap string string)
    (order : list (string * string)) :
  entryOrder src order → rangeInsert order dst = src ∪ dst.
Proof.
  intros H. unfold entryOrder in H.
  assert (NoDup order.*1) as Hnd.
  { rewrite H. apply NoDup_fst_map_to_list. }
  rewrite rangeInsert_list by done.
  by rewrite (list_to_map_proper _ _ Hnd H), list_to_map_to_list.
Qed.

(** C5. [ConvertToSecret] returns a secret, without error, whose labels
    are the three layers merged, later over earlier: the take-along
    labels over the cluster labels over the static common labels. A key
    of the take-along labels has the take-along value in the merged
    labels, also when it is one of the static common labels; a key not in
    the take-along labels has the value of the cluster labels when it is
    there, and that of the common labels otherwise. *)
Theorem ConvertToSecret_labels (quote : string → string) (a : ArgoCluster)
    (commonOrder clusterOrder takeAlongOrder : list (string * string)) :
  entryOrder GetArgoCommonLabels commonOrder →
  entryOrder (acClusterLabels a) clusterOrder →
  entryOrder (entries (acTakeAlongLabels a)) takeAlongOrder →
  ∃ sec,
    ConvertToSecret quote commonOrder clusterOrder takeAlongOrder a
      = (Some sec, None)
    ∧ secLabels sec
      = entries (acTakeAlongLabels a)
          ∪ (acClusterLabels a ∪ GetArgoCommonLabels)
    ∧ (∀ k v, entries (acTakeAlongLabels a) !! k = Some v →
              secLabels sec !! k = Some v)
    ∧ (∀ k v, entries (acTakeAlongLabels a) !! k = Some v →
              is_Some (GetArgoCommonLabels !! k) →
              secLabels sec !! k = Some v)
    ∧ (∀ k v, entries (acTakeAlongLabels a) !! k = None →
              acClusterLabels a !! k = Some v →
              secLabels sec !! k = Some v)
    ∧ (∀ k, entries (acTakeAlongLabels a) !! k = None →
            acClusterLabels a !! k = None →
            secLabels sec !! k = GetArgoCommonLabels !! k).
Proof.
  intros H1 H2 H3. unfold ConvertToSecret. simpl. eexists.
  split; [reflexivity |]. simpl.
  rewrite (rangeInsert_union _ _ _ H1), (rangeInsert_union _ _ _ H2),
    (rangeInsert_union _ _ _ H3), (right_id_L ∅ (∪)).
  split; [done |].
  split; [| split; [| split]].
  - intros k v Hk. by apply lookup_union_Some_l.
  - intros k v Hk _. by apply lookup_union_Some_l.
  - intros k v Hk Hc. rewrite lookup_union_r by done.
    by apply lookup_union_Some_l.
  - intros k Hk Hc. by rewrite !lookup_union_r.
Qed.

(** ** Assembly *)

(** A rejected key among the keys of the scanned map makes the scan
    return the nil map and one message. *)
Lemma collectTakeAlong_rejected (metaName : MetaType) (name namespace : string)
    (meta : gmap string string) (order : list string) :
  keyOrder meta order →
  (∃ k, k ∈ dom meta ∧ (extractTakeAlongMeta (mtName metaName) k).2 ≠ None) →
  ∃ e, collectTakeAlong metaName name namespace meta order = (NilMap, [e]).
Proof.
  intros Hord (k & Hk & Hbad).
  destruct (scanTakeAlong_err (mtName metaName) order [])
    as (k' & _ & _ & _ & Hs).
  { exists k. split; [by apply (keyOrder_elem _ _ _ Hord) | done]. }
  eexists. by apply collectTakeAlong_err.
Qed.

(** The scan for labels reads the labels only, and the scan for
    annotations the annotations only. *)
Lemma buildTakeAlongArray_labels (order : list string) (cl : Cluster) :
  buildTakeAlongArray order cl metaLabels
    = collectTakeAlong (GetMetaType metaLabels) (clName cl) (clNamespace cl)
        (clLabels cl) order.
Proof. done. Qed.

Lemma buildTakeAlongArray_annotations (order : list string) (cl : Cluster) :
  buildTakeAlongArray order cl metaAnnotations
    = collectTakeAlong (GetMetaType metaAnnotations) (clName cl)
        (clNamespace cl) (clAnnotations cl) order.
Proof. done. Qed.

(** The cluster labels of an assembled object are the two identity
    labels, made from the name and namespace of the CAPI cluster. *)
Lemma NewArgoCluster_identity_labels (cfg : Config)
    (labelOrder annotationOrder : list string)
    (c : CapiCluster) (s : Secret) (cluster : option Cluster)
    (a : ArgoCluster) (err : option string) :
  (NewArgoCluster cfg labelOrder annotationOrder (Some c) (Some s) cluster).2
    = Returned a err →
  acClusterLabels a
    = <["capi-to-argocd/cluster-namespace" := capiNamespace c]>
        (<["capi-to-argocd/cluster-secret-name"
             := capiName c +:+ "-kubeconfig"]> ∅).
Proof.
  unfold NewArgoCluster.
  destruct (match cluster with
            | Some cl => buildTakeAlongArray labelOrder cl metaLabels
            | None => (MkMap ∅, [])
            end) as [ml el].
  destruct (match cluster with
            | Some cl => buildTakeAlongArray annotationOrder cl metaAnnotations
            | None => (MkMap ∅, [])
            end) as [ma ea].
  simpl.
  destruct (Clusters (capiKubeConfig c) !! 0%nat); [| done].
  destruct (Users (capiKubeConfig c) !! 0%nat); [| done].
  by intros [= <- _].
Qed.

(** C9, as the claim states it, fails: with a kubeconfig that lists no
    cluster (or no user) the call panics at [c.KubeConfig.Clusters[0]]
    (at [Users[0]]) and returns nothing; and it panics on a nil source
    secret or a nil CAPI cluster, which the returned literal reads
    unchecked, also when the kubeconfig lists a cluster and a user. *)
Lemma NewArgoCluster_panics_on_missing_input :
  (NewArgoCluster (mkConfig "argocd" false) [] []
     (Some (mkCapiCluster "prod" "team-a" (mkKubeConfig [] [])))
     (Some (mkSecret "Secret" "v1" "prod-kubeconfig" "team-a" ∅ ∅)) None).2
  = Panicked
  ∧ (NewArgoCluster (mkConfig "argocd" false) [] []
       (Some (mkCapiCluster "prod" "team-a"
                (mkKubeConfig
                   [mkNamedCluster "prod" (mkKubeCluster "https://prod:6443" "Q0E=")]
                   [])))
       (Some (mkSecret "Secret" "v1" "prod-kubeconfig" "team-a" ∅ ∅)) None).2
    = Panicked
  ∧ (NewArgoCluster (mkConfig "argocd" false) [] []
       (Some Examples.capi) None None).2
    = Panicked
  ∧ (NewArgoCluster (mkConfig "argocd" false) [] []
       None (Some Examples.source) None).2
    = Panicked.
Proof. repeat split. Qed.

(** C9 (amended). Given a CAPI cluster and a source secret (both
    pointers non-nil) whose kubeconfig lists at least one cluster and at
    least one user, [NewArgoCluster] returns an [ArgoCluster] and a nil
    error, whatever the cluster resource holds. Its two take-along maps
    are what the two scans returned (allocated empty maps without a
    cluster resource), and the messages of both scans are logged, labels
    first. When the extractor rejects a label key, the take-along labels
    have no entry and the take-along annotations are the result of the
    scan of the annotations, which reads the annotations only; and the
    other way round. *)
Theorem NewArgoCluster_completes (cfg : Config)
    (labelOrder annotationOrder : list string)
    (c : CapiCluster) (s : Secret) (cluster : option Cluster) :
  Clusters (capiKubeConfig c) ≠ [] →
  Users (capiKubeConfig c) ≠ [] →
  ∃ a,
    (NewArgoCluster cfg labelOrder annotationOrder (Some c) (Some s)
       cluster).2
      = Returned a None
    ∧ (cluster = None →
       acTakeAlongLabels a = MkMap ∅ ∧ acTakeAlongAnnotations a = MkMap ∅
       ∧ (NewArgoCluster cfg labelOrder annotationOrder (Some c) (Some s)
       cluster).1 = [])
    ∧ (∀ cl, cluster = Some cl →
         let labelScan :=
           collectTakeAlong (GetMetaType metaLabels) (clName cl)
             (clNamespace cl) (clLabels cl) labelOrder in
         let annotationScan :=
           collectTakeAlong (GetMetaType metaAnnotations) (clName cl)
             (clNamespace cl) (clAnnotations cl) annotationOrder in
         acTakeAlongLabels a = labelScan.1
         ∧ acTakeAlongAnnotations a = annotationScan.1
         ∧ (NewArgoCluster cfg labelOrder annotationOrder (Some c) (Some s)
       cluster).1
           = labelScan.2 ++ annotationScan.2
         ∧ (keyOrder (clLabels cl) labelOrder →
            (∃ k, k ∈ dom (clLabels cl)
                  ∧ (extractTakeAlongMeta "label" k).2 ≠ None) →
            entries (acTakeAlongLabels a) = ∅
            ∧ acTakeAlongAnnotations a = annotationScan.1)
         ∧ (keyOrder (clAnnotations cl) annotationOrder →
            (∃ k, k ∈ dom (clAnnotations cl)
                  ∧ (extractTakeAlongMeta "annotation" k).2 ≠ None) →
            entries (acTakeAlongAnnotations a) = ∅
            ∧ acTakeAlongLabels a = labelScan.1)).
Proof.
  intros Hc Hu. unfold NewArgoCluster.
  destruct c as [cname cns [[|c0 cs] [|u0 us]]]; simpl in *; try done.
  destruct cluster as [cl|].
  - rewrite buildTakeAlongArray_labels, buildTakeAlongArray_annotations.
    destruct (collectTakeAlong (GetMetaType metaLabels) _ _ _ _)
      as [ml el] eqn:El.
    destruct (collectTakeAlong (GetMetaType metaAnnotations) _ _ _ _)
      as [ma ea] eqn:Ea.
    simpl. eexists. split; [reflexivity |]. simpl.
    split; [done |].
    intros cl' [= <-]. rewrite El, Ea. simpl.
    split; [done |]. split; [done |]. split; [done |]. split.
    + intros Hord Hbad.
      destruct (collectTakeAlong_rejected (GetMetaType metaLabels) (clName cl)
                  (clNamespace cl) _ _ Hord Hbad) as [e He].
      rewrite He in El. by injection El as <- <-.
    + intros Hord Hbad.
      destruct (collectTakeAlong_rejected (GetMetaType metaAnnotations)
                  (clName cl) (clNamespace cl) _ _ Hord Hbad) as [e He].
      rewrite He in Ea. by injection Ea as <- <-.
  - simpl. eexists. split; [reflexivity |]. simpl. split; [done |].
    intros cl [=].
Qed.

(** C10. [NewArgoCluster] reads the first listed cluster and the first
    listed user only: two kubeconfigs with the same first cluster entry
    and the same first user entry give the same result (the same logged
    lines and the same returned [ArgoCluster]), the other arguments being
    the same; and that result is a returned value, not a panic. With a
    nil source secret the two calls agree as well (both panic after the
    same logging). *)
Theorem NewArgoCluster_first_entries_only (cfg : Config)
    (labelOrder annotationOrder : list string) (name namespace : string)
    (cluster0 : NamedCluster) (user0 : NamedUser)
    (clusters1 clusters2 : list NamedCluster) (users1 users2 : list NamedUser)
    (s : Secret) (cluster : option Cluster) :
  NewArgoCluster cfg labelOrder annotationOrder
    (Some (mkCapiCluster name namespace
             (mkKubeConfig (cluster0 :: clusters1) (user0 :: users1))))
    (Some s) cluster
  = NewArgoCluster cfg labelOrder annotationOrder
      (Some (mkCapiCluster name namespace
               (mkKubeConfig (cluster0 :: clusters2) (user0 :: users2))))
      (Some s) cluster
  ∧ (∃ a,
      (NewArgoCluster cfg labelOrder annotationOrder
         (Some (mkCapiCluster name namespace
                  (mkKubeConfig (cluster0 :: clusters1) (user0 :: users1))))
         (Some s) cluster).2
      = Returned a None)
  ∧ NewArgoCluster cfg labelOrder annotationOrder
      (Some (mkCapiCluster name namespace
               (mkKubeConfig (cluster0 :: clusters1) (user0 :: users1))))
      None cluster
    = NewArgoCluster cfg labelOrder annotationOrder
        (Some (mkCapiCluster name namespace
                 (mkKubeConfig (cluster0 :: clusters2) (user0 :: users2))))
        None cluster.
Proof.
  split; [reflexivity |]. split; [| reflexivity].
  unfold NewArgoCluster. simpl.
  destruct (match cluster with
            | Some cl => buildTakeAlongArray labelOrder cl metaLabels
            | None => (MkMap ∅, [])
            end) as [ml el].
  destruct (match cluster with
            | Some cl => buildTakeAlongArray annotationOrder cl metaAnnotations
            | None => (MkMap ∅, [])
            end) as [ma ea].
  simpl. by eexists.
Qed.


Section Witnesses.

Import Examples.

Lemma buildTakeAlongArray_malformed_key_witness :
  ∃ k, buildTakeAlongArray (map_to_list malformedLabels).*1
         malformedCluster metaLabels
       = (NilMap, [malformedKeyError "label" k]).
Proof.
  destruct (buildTakeAlongArray_malformed_key malformedCluster metaLabels
              (map_to_list malformedLabels).*1) as (k & _ & _ & H & _).
  - by left.
  - apply keyOrder_canonical.
  - apply elem_of_dom. vm_compute. by eexists.
  - by exists k.
Defined.

Lemma siblingLabels_dom (k : string) :
  k ∈ dom siblingLabels →
  k = "take-along-label.capi-to-argocd.foo" ∨ k = "foo" ∨ k = "env".
Proof.
  intros Hk. apply elem_of_dom in Hk. unfold siblingLabels in Hk.
  rewrite !lookup_insert in Hk. repeat case_decide; subst; eauto.
  rewrite lookup_empty in Hk. by destruct Hk.
Defined.

Lemma buildTakeAlongArray_copies_sibling_witness :
  buildTakeAlongArray (map_to_list siblingLabels).*1 siblingCluster metaLabels
  = (MkMap (<["taken-from-cluster-label.capi-to-argocd.foo" := EmptyString]>
              (<["foo" := "v"]> ∅)),
     []).
Proof.
  apply (buildTakeAlongArray_copies_sibling siblingCluster
           (map_to_list siblingLabels).*1 "v").
  - apply keyOrder_canonical.
  - apply elem_of_dom. vm_compute. by eexists.
  - by vm_compute.
  - intros k Hk Hne.
    destruct (siblingLabels_dom k Hk) as [-> | [-> | ->]]; done.
Defined.

Lemma missingLabels_dom (k : string) :
  k ∈ dom missingLabels →
  k = "take-along-label.capi-to-argocd.missing"
  ∨ k = "take-along-label.capi-to-argocd.foo" ∨ k = "foo".
Proof.
  intros Hk. apply elem_of_dom in Hk. unfold missingLabels in Hk.
  rewrite !lookup_insert in Hk. repeat case_decide; subst; eauto.
  rewrite lookup_empty in Hk. by destruct Hk.
Defined.


Lemma ConvertToSecret_labels_witness :
  ∃ sec,
    ConvertToSecret plainQuote (map_to_list GetArgoCommonLabels)
      (map_to_list (acClusterLabels colliding))
      (map_to_list (entries (acTakeAlongLabels colliding))) colliding
    = (Some sec, None)
    ∧ GetArgoCommonLabels !! "capi-to-argocd/owned" = Some "true"
    ∧ secLabels sec !! "capi-to-argocd/owned" = Some "taken".
Proof.
  destruct (ConvertToSecret_labels plainQuote colliding
              (map_to_list GetArgoCommonLabels)
              (map_to_list (acClusterLabels colliding))
              (map_to_list (entries (acTakeAlongLabels colliding))))
    as (sec & Hs & _ & Hk & _); try apply entryOrder_canonical.
  exists sec. split; [done |]. split; [by vm_compute |].
  apply Hk. by vm_compute.
Defined.

Lemma NewArgoCluster_completes_witness :
  ∃ a,
    (NewArgoCluster cfg (map_to_list malformedLabels).*1 []
       (Some capi) (Some source) (Some malformedCluster)).2
    = Returned a None
    ∧ entries (acTakeAlongLabels a) = ∅
    ∧ acTakeAlongAnnotations a = MkMap ∅.
Proof.
  destruct (NewArgoCluster_completes cfg (map_to_list malformedLabels).*1 []
              capi source (Some malformedCluster))
    as (a & Ha & _ & Hcl); [done | done |].
  destruct (Hcl malformedCluster eq_refl) as (_ & _ & _ & Hl & _).
  destruct Hl as [He Ha'].
  - apply keyOrder_canonical.
  - exists "take-along-label.capi-to-argocd.". split.
    + apply elem_of_dom. vm_compute. by eexists.
    + by vm_compute.
  - exists a. split; [done |]. split; [done |]. by rewrite Ha'.
Defined.

End Witnesses.

(** * Further properties of the code *)

(** ** More on the string functions *)

Section MoreStringFacts.

Lemma drop_zero (s : string) : drop 0 s = s.
Proof. by destruct s. Qed.

Lemma drop_succ (n : nat) (c : Ascii.ascii) (s : string) :
  drop (S n) (String c s) = drop n s.
Proof. reflexivity. Qed.

Lemma drop_add (n k : nat) (s : string) : drop k (drop n s) = drop (n + k) s.
Proof.
  revert s. induction n as [|n IH]; intros s.
  - by rewrite drop_zero.
  - destruct s as [|c s]; [by destruct k |]. simpl. apply IH.
Qed.

(** [Index] finds an instance: the string continues with [substr] at
    the position returned. *)
Lemma Index_found (s substr : string) (m : nat) :
  Index s substr = Some m → HasPrefix (drop m s) substr = true.
Proof.
  revert m. induction s as [|c s IH]; intros m; rewrite Index_unfold.
  - destruct (HasPrefix EmptyString substr) eqn:E; [| done].
    by intros [= <-].
  - destruct (HasPrefix (String c s) substr) eqn:E.
    + by intros [= <-].
    + destruct (Index s substr) as [m'|] eqn:Ei; [| done].
      intros [= <-]. rewrite drop_succ. by apply IH.
Qed.

(** Position [0] is returned exactly when the string starts with
    [substr]. *)
Lemma Index_zero (s substr : string) :
  Index s substr = Some 0%nat ↔ HasPrefix s substr = true.
Proof.
  split; [| apply Index_prefix].
  intros H. apply Index_found in H. by rewrite drop_zero in H.
Qed.

Lemma Index_None_prefix (s substr : string) :
  Index s substr = None → HasPrefix s substr = false.
Proof.
  intros H. destruct (HasPrefix s substr) eqn:E; [| done].
  apply Index_prefix in E. congruence.
Qed.

Lemma take_empty (m : nat) (s : string) :
  take m s = EmptyString → m = 0%nat ∨ s = EmptyString.
Proof. destruct m, s; simpl; eauto; done. Qed.

(** The first piece of a split, when it is not empty, does not start
    with the separator. *)
Lemma firstPiece_not_prefix (r p : string) :
  firstPiece r p ≠ EmptyString → HasPrefix (firstPiece r p) p = false.
Proof.
  unfold firstPiece. intros Hne.
  destruct (Index r p) as [m|] eqn:Ei; [| by apply Index_None_prefix].
  destruct (HasPrefix (take m r) p) eqn:E; [| done].
  assert (HasPrefix r p = true) as Hr.
  { rewrite <- (take_drop m r), (HasPrefix_inv _ _ E), app_assoc_str.
    apply HasPrefix_app. }
  apply Index_zero in Hr. rewrite Hr in Ei. injection Ei as <-.
  by destruct r.
Qed.

End MoreStringFacts.

(** ** More on extractTakeAlongMeta *)

(** X2. [extractTakeAlongMeta] returns an error exactly on the keys that
    are the take-along prefix alone or that start with the prefix
    twice; on every other key the error is nil. *)
Theorem extractTakeAlongMeta_error_iff (kind key : string) :
  (extractTakeAlongMeta kind key).2 ≠ None
  ↔ key = clusterTakeAlongKeyFmt kind
    ∨ HasPrefix key (clusterTakeAlongKeyFmt kind +:+ clusterTakeAlongKeyFmt kind)
      = true.
Proof.
  split.
  - intros Hbad.
    destruct (extractTakeAlongMeta_shape kind key) as [[t Ht] | [Hp He]].
    { rewrite Ht in Hbad. by destruct Hbad. }
    pose proof (HasPrefix_inv _ _ Hp) as Hk.
    set (r := drop (String.length (clusterTakeAlongKeyFmt kind)) key) in *.
    rewrite Hk, extractTakeAlongMeta_prefix in He.
    case_decide as Hfp; [done |].
    unfold firstPiece in Hfp.
    destruct (Index r (clusterTakeAlongKeyFmt kind)) as [m|] eqn:Ei.
    + apply take_empty in Hfp as [-> | Hr].
      * right. apply Index_zero in Ei. rewrite Hk.
        rewrite (HasPrefix_inv _ _ Ei), <- app_assoc_str.
        apply HasPrefix_app.
      * left. by rewrite Hk, Hr, app_empty_r.
    + left. by rewrite Hk, Hfp, app_empty_r.
  - intros [-> | Hpp].
    + by rewrite extractTakeAlongMeta_bare_prefix.
    + rewrite (HasPrefix_inv _ _ Hpp), app_assoc_str.
      rewrite extractTakeAlongMeta_prefix. unfold firstPiece.
      rewrite Index_prefix by apply HasPrefix_app.
      by rewrite decide_False by (intros H; by apply H).
Qed.

(** X3. When [extractTakeAlongMeta] returns a target, the error is nil
    and the key is the take-along prefix, then the target, then either
    nothing or a rest that starts with the prefix again (which is
    dropped); the target itself does not start with the prefix. *)
Theorem extractTakeAlongMeta_target_shape (kind key t : string) :
  (extractTakeAlongMeta kind key).1 = t →
  t ≠ EmptyString →
  (extractTakeAlongMeta kind key).2 = None
  ∧ HasPrefix t (clusterTakeAlongKeyFmt kind) = false
  ∧ ∃ rest,
      key = clusterTakeAlongKeyFmt kind +:+ t +:+ rest
      ∧ (rest = EmptyString
         ∨ HasPrefix rest (clusterTakeAlongKeyFmt kind) = true).
Proof.
  intros Ht Hne.
  destruct (HasPrefix key (clusterTakeAlongKeyFmt kind)) eqn:Hp.
  2: { rewrite extractTakeAlongMeta_other in Ht by done. simpl in Ht.
       by subst. }
  pose proof (HasPrefix_inv _ _ Hp) as Hk.
  remember (drop (String.length (clusterTakeAlongKeyFmt kind)) key) as r
    eqn:Hr.
  clear Hr Hp. subst key. rewrite extractTakeAlongMeta_prefix in Ht |- *.
  case_decide as Hfp; simpl in Ht; [| by subst].
  split; [done |]. subst t.
  split; [by apply firstPiece_not_prefix |].
  unfold firstPiece in *.
  destruct (Index r (clusterTakeAlongKeyFmt kind)) as [m|] eqn:Ei.
  - exists (drop m r). split; [by rewrite take_drop |].
    right. by apply Index_found.
  - exists EmptyString. split; [by rewrite app_empty_r | by left].
Qed.

(** X4. A provenance marker key (the taken-from prefix of any kind
    followed by anything) is never a take-along request, of any kind;
    and a take-along key for labels is not a request for annotations, nor
    the other way round: the extractor gives no target and no error. *)
Theorem extractTakeAlongMeta_other_families (kind kind' t : string) :
  extractTakeAlongMeta kind' (clusterTakenFromClusterKeyFmt kind +:+ t)
    = (EmptyString, None)
  ∧ extractTakeAlongMeta "annotation" (clusterTakeAlongKeyFmt "label" +:+ t)
    = (EmptyString, None)
  ∧ extractTakeAlongMeta "label" (clusterTakeAlongKeyFmt "annotation" +:+ t)
    = (EmptyString, None).
Proof.
  split; [| split]; by apply extractTakeAlongMeta_other.
Qed.

(** ** More on buildTakeAlongArray *)

Section MoreScanFacts.

Variable kind : string.

(** A target is not itself a request of the same kind. *)
Lemma target_not_request (k : string) :
  target kind k ≠ EmptyString →
  HasPrefix (target kind k) (clusterTakeAlongKeyFmt kind) = false.
Proof.
  unfold target. intros Hne.
  destruct (HasPrefix k (clusterTakeAlongKeyFmt kind)) eqn:Hp.
  - rewrite (HasPrefix_inv _ _ Hp) in Hne |- *.
    rewrite extractTakeAlongMeta_prefix in Hne |- *.
    case_decide; [| done]. by apply firstPiece_not_prefix.
  - by rewrite extractTakeAlongMeta_other in Hne.
Qed.

(** The first loop stops at the first key the extractor rejects. *)
Lemma scanTakeAlong_first_rejected (pre post : list string) (k : string)
    (acc : list string) :
  (∀ k', k' ∈ pre → (extractTakeAlongMeta kind k').2 = None) →
  (extractTakeAlongMeta kind k).2 ≠ None →
  scanTakeAlong kind (pre ++ k :: post) acc = inr (malformedKeyError kind k).
Proof.
  revert acc. induction pre as [|k' pre IH]; intros acc Hpre Hbad; simpl.
  - destruct (extractTakeAlongMeta_shape kind k) as [[t Ht] | [_ He]].
    + rewrite Ht in Hbad. by destruct Hbad.
    + by rewrite He.
  - pose proof (Hpre k' (list_elem_of_here _ _)) as Hk'.
    assert (∀ k'', k'' ∈ pre → (extractTakeAlongMeta kind k'').2 = None)
      as Hpre' by (intros; apply Hpre; by constructor).
    destruct (extractTakeAlongMeta kind k') as [l e]. simpl in Hk'. subst e.
    case_decide; by apply IH.
Qed.

(** The two ways the first loop ends. *)
Lemma scanTakeAlong_cases (order : list string) :
  (∃ e, scanTakeAlong kind order [] = inr e)
  ∨ scanTakeAlong kind order [] = inl (target kind <$> takeAlongKeys kind order).
Proof.
  destruct (decide (Forall (λ k, (extractTakeAlongMeta kind k).2 = None) order))
    as [Hall | Hex].
  - right. rewrite scanTakeAlong_ok; [done |].
    by apply Forall_forall.
  - left. apply not_Forall_Exists, Exists_exists in Hex as (k & Hk & Hbad);
      [| apply _].
    destruct (scanTakeAlong_err kind order []) as (k' & _ & _ & _ & Hs).
    { exists k. by split. }
    by eexists.
Qed.

End MoreScanFacts.

Section MoreCopyFacts.

Variables (metaName : MetaType) (name namespace : string).
Variable meta : gmap string string.

Local Abbreviation copy := (copyTakeAlong metaName name namespace meta).
Local Abbreviation marker := (λ t, mtTakenFrom metaName +:+ t).

(** When no target starts with the taken-from prefix, the entries of
    the map of the second loop are exactly the targets found in the
    metadata, with their values, and their markers, with the empty
    value. *)
Lemma copyTakeAlong_lookup_iff (arr : list string) (x y : string) :
  Forall (λ t, t ≠ EmptyString) arr →
  (∀ t, t ∈ arr → HasPrefix t (mtTakenFrom metaName) = false) →
  (copy arr ∅ []).1 !! x = Some y
  ↔ (x ∈ arr ∧ meta !! x = Some y)
    ∨ (∃ u, u ∈ arr ∧ is_Some (meta !! u) ∧ x = marker u ∧ y = EmptyString).
Proof.
  intros Hne Hfree. split.
  - intros Hx. apply copyTakeAlong_sound in Hx as [Hx | Hx]; [| done].
    by rewrite lookup_empty in Hx.
  - intros [[Hin Hx] | (u & Hin & Hu & -> & ->)].
    + destruct (copyTakeAlong_present metaName name namespace meta arr ∅ [] x)
        as [[z Hz] _]; [done | done | by eexists |].
      rewrite Hz. f_equal.
      apply copyTakeAlong_sound in Hz
        as [Hz | [[_ Hz] | (u & _ & _ & Hu & _)]].
      * by rewrite lookup_empty in Hz.
      * congruence.
      * apply Hfree in Hin. by rewrite Hu, HasPrefix_app in Hin.
    + destruct (copyTakeAlong_present metaName name namespace meta arr ∅ [] u)
        as [_ [z Hz]]; [done | done | done |].
      rewrite Hz. f_equal.
      apply copyTakeAlong_sound in Hz
        as [Hz | [[Hin' _] | (u' & _ & _ & _ & Hz)]].
      * by rewrite lookup_empty in Hz.
      * apply Hfree in Hin'. by rewrite HasPrefix_app in Hin'.
      * done.
Qed.

End MoreCopyFacts.

(** X5. When no visited key starts with the take-along prefix of the
    kind (in particular on an empty or nil metadata map),
    [buildTakeAlongArray] returns an allocated empty map and no message;
    this also covers a kind selector that is neither labels nor
    annotations. *)
Theorem buildTakeAlongArray_no_requests (order : list string)
    (cluster : Cluster) (metaType : Z) :
  (∀ k, k ∈ order →
        HasPrefix k (mtTakeAlong (GetMetaType metaType)) = false) →
  buildTakeAlongArray order cluster metaType = (MkMap ∅, []).
Proof.
  intros Hno.
  assert (scanTakeAlong (mtName (GetMetaType metaType)) order [] = inl [])
    as Hs.
  { rewrite scanTakeAlong_ok.
    - rewrite takeAlongKeys_none; [done |].
      intros k Hk. unfold target.
      by rewrite extractTakeAlongMeta_other by by apply Hno.
    - intros k Hk. by rewrite extractTakeAlongMeta_other by by apply Hno. }
  unfold buildTakeAlongArray.
  repeat case_decide; try done;
    by rewrite (collectTakeAlong_ok _ _ _ _ _ _ Hs).
Qed.

(** X6. [buildTakeAlongArray] reports the first key, in visiting order,
    that the extractor rejects: when the keys visited before [k] are all
    accepted and [k] is rejected, the result is the nil map and the one
    message for [k], whatever comes after. *)
Theorem buildTakeAlongArray_first_rejected (pre post : list string)
    (k : string) (cluster : Cluster) (metaType : Z) :
  metaType = metaLabels ∨ metaType = metaAnnotations →
  (∀ k', k' ∈ pre →
         (extractTakeAlongMeta (mtName (GetMetaType metaType)) k').2 = None) →
  (extractTakeAlongMeta (mtName (GetMetaType metaType)) k).2 ≠ None →
  buildTakeAlongArray (pre ++ k :: post) cluster metaType
    = (NilMap, [malformedKeyError (mtName (GetMetaType metaType)) k]).
Proof.
  intros Hmt Hpre Hbad.
  rewrite buildTakeAlongArray_collect by done.
  apply collectTakeAlong_err. by apply scanTakeAlong_first_rejected.
Qed.

Section MoreCollector.

Variables (cluster : Cluster) (metaType : Z).

Local Abbreviation kind := (mtName (GetMetaType metaType)).
Local Abbreviation meta := (metaOf cluster metaType).

(** X7. When exactly one key of the selected metadata map is rejected by
    the extractor, the message names that key, in every visiting order. *)
Theorem buildTakeAlongArray_unique_rejected (order : list string) (k : string) :
  metaType = metaLabels ∨ metaType = metaAnnotations →
  keyOrder meta order →
  k ∈ dom meta →
  (extractTakeAlongMeta kind k).2 ≠ None →
  (∀ k', k' ∈ dom meta → k' ≠ k → (extractTakeAlongMeta kind k').2 = None) →
  buildTakeAlongArray order cluster metaType
    = (NilMap, [malformedKeyError kind k]).
Proof.
  intros Hmt Hord Hk Hbad Hothers.
  destruct (scanTakeAlong_err kind order []) as (k' & Hin & _ & He & Hs).
  { exists k. split; [by apply (keyOrder_elem _ _ _ Hord) | done]. }
  assert (k' = k) as ->.
  { destruct (decide (k' = k)) as [| Hne]; [done |].
    apply (keyOrder_elem _ _ _ Hord) in Hin.
    specialize (Hothers k' Hin Hne). by rewrite He in Hothers. }
  rewrite buildTakeAlongArray_collect by done.
  by apply collectTakeAlong_err.
Qed.

(** X8. No key of the map returned by [buildTakeAlongArray] starts with
    the take-along prefix of the kind: the take-along map holds no
    take-along request. *)
Theorem buildTakeAlongArray_result_no_requests (order : list string)
    (x : string) :
  is_Some (entries (buildTakeAlongArray order cluster metaType).1 !! x) →
  HasPrefix x (mtTakeAlong (GetMetaType metaType)) = false.
Proof.
  assert (∀ m,
    is_Some (entries (collectTakeAlong (GetMetaType metaType)
                        (clName cluster) (clNamespace cluster) m order).1 !! x) →
    HasPrefix x (mtTakeAlong (GetMetaType metaType)) = false) as Hcollect.
  { intros m.
    destruct (scanTakeAlong_cases kind order) as [[e He] | Hs].
    - rewrite (collectTakeAlong_err _ _ _ _ _ _ He). simpl.
      rewrite lookup_empty. by intros [? ?].
    - rewrite (collectTakeAlong_ok _ _ _ _ _ _ Hs). simpl.
      intros [y Hy].
      apply copyTakeAlong_sound in Hy
        as [Hy | [[Hin _] | (u & _ & _ & -> & _)]].
      + by rewrite lookup_empty in Hy.
      + apply list_elem_of_fmap in Hin as (k & -> & Hk).
        apply target_not_request. unfold takeAlongKeys in Hk.
        by apply list_elem_of_filter in Hk as [? _].
      + reflexivity. }
  unfold buildTakeAlongArray. repeat case_decide; try apply Hcollect.
  simpl. rewrite lookup_empty. by intros [? ?].
Qed.

(** X9. The visiting order does not matter when no key is rejected and
    no target starts with the taken-from prefix: two orders of the same
    metadata map give the same take-along map, and the same warnings up
    to their order. *)
Theorem buildTakeAlongArray_order_independent (order1 order2 : list string) :
  metaType = metaLabels ∨ metaType = metaAnnotations →
  keyOrder meta order1 →
  keyOrder meta order2 →
  (∀ k, k ∈ dom meta → (extractTakeAlongMeta kind k).2 = None) →
  (∀ k, k ∈ dom meta →
        HasPrefix (target kind k) (mtTakenFrom (GetMetaType metaType)) = false) →
  (buildTakeAlongArray order1 cluster metaType).1
    = (buildTakeAlongArray order2 cluster metaType).1
  ∧ (buildTakeAlongArray order1 cluster metaType).2
    ≡ₚ (buildTakeAlongArray order2 cluster metaType).2.
Proof.
  intros Hmt Hord1 Hord2 Hok Hfree.
  assert (∀ order, keyOrder meta order →
            scanTakeAlong kind order []
              = inl (target kind <$> takeAlongKeys kind order)) as Hscan.
  { intros order Hord. rewrite scanTakeAlong_ok; [done |].
    intros k Hk. apply Hok. by apply (keyOrder_elem _ _ _ Hord). }
  assert (∀ order, keyOrder meta order →
            ∀ t, t ∈ target kind <$> takeAlongKeys kind order →
                 HasPrefix t (mtTakenFrom (GetMetaType metaType)) = false)
    as Harr.
  { intros order Hord t Ht.
    apply list_elem_of_fmap in Ht as (k & -> & Hk).
    unfold takeAlongKeys in Hk. apply list_elem_of_filter in Hk as [_ Hk].
    apply Hfree. by apply (keyOrder_elem _ _ _ Hord). }
  assert (target kind <$> takeAlongKeys kind order1
            ≡ₚ target kind <$> takeAlongKeys kind order2) as Hperm.
  { unfold takeAlongKeys, keyOrder in *. by rewrite Hord1, Hord2. }
  rewrite !buildTakeAlongArray_collect by done.
  rewrite (collectTakeAlong_ok _ _ _ _ _ _ (Hscan _ Hord1)).
  rewrite (collectTakeAlong_ok _ _ _ _ _ _ (Hscan _ Hord2)).
  simpl. split.
  - f_equal. apply map_eq. intros x. apply option_eq. intros y.
    rewrite !copyTakeAlong_lookup_iff
      by eauto using takeAlongKeys_targets_nonempty.
    by setoid_rewrite Hperm.
  - rewrite !copyTakeAlong_errors by apply takeAlongKeys_targets_nonempty.
    simpl. by rewrite Hperm.
Qed.

End MoreCollector.

(** Without the condition of X9 on the targets the order can matter:
    when a label and the marker of that label are both requested, the
    value kept for the marker key depends on which is copied last. *)
Lemma buildTakeAlongArray_order_matters :
  keyOrder MoreExamples.markerLabels MoreExamples.markerOrder1
  ∧ keyOrder MoreExamples.markerLabels MoreExamples.markerOrder2
  ∧ entries (buildTakeAlongArray MoreExamples.markerOrder1
             MoreExamples.markerCluster metaLabels).1
    !! "taken-from-cluster-label.capi-to-argocd.x/bar" = Some "z"
  ∧ entries (buildTakeAlongArray MoreExamples.markerOrder2
               MoreExamples.markerCluster metaLabels).1
      !! "taken-from-cluster-label.capi-to-argocd.x/bar" = Some EmptyString.
Proof.
  split; [| split; [| split; by vm_compute]].
  - unfold keyOrder. apply (bool_decide_unpack _). by vm_compute.
  - unfold keyOrder. apply (bool_decide_unpack _). by vm_compute.
Qed.

(** ** More on the names *)

(** X10. Two source secret names get the same target identity, for the
    same namespace and configuration, exactly when they are equal once
    a trailing [-kubeconfig] is removed; so [base] and
    [base-kubeconfig] share one identity when [base] has no such
    suffix. [BuildClusterName] itself never merges two names. *)
Theorem BuildNamespacedName_collision_iff (cfg : Config) (s s' ns : string) :
  (BuildNamespacedName cfg s ns = BuildNamespacedName cfg s' ns
   ↔ TrimSuffix s "-kubeconfig" = TrimSuffix s' "-kubeconfig")
  ∧ (BuildClusterName cfg s ns = BuildClusterName cfg s' ns ↔ s = s')
  ∧ ((∀ b, s ≠ b +:+ "-kubeconfig") →
     BuildNamespacedName cfg (s +:+ "-kubeconfig") ns
       = BuildNamespacedName cfg s ns).
Proof.
  assert (∀ a b, BuildClusterName cfg a ns = BuildClusterName cfg b ns ↔ a = b)
    as Hinj.
  { intros a b. split; [| by intros ->].
    rewrite !BuildClusterName_cases.
    destruct (EnableNamespacedNames cfg); [| done].
    intros H. by apply (inj (String.app ns)), (inj (String.app "-")) in H. }
  split; [| split; [apply Hinj |]].
  - unfold BuildNamespacedName. split.
    + intros [= H]. apply Hinj. exact H.
    + by intros ->.
  - intros Hno. unfold BuildNamespacedName.
    by rewrite TrimSuffix_app, TrimSuffix_none.
Qed.

(** ** More on NewArgoCluster *)

(** X11. [NewArgoCluster] panics exactly when the source secret is nil,
    or the CAPI cluster is nil, or its kubeconfig lists no cluster or no
    user; whenever it returns, the error is nil. The lines logged do not
    depend on the secret nor on the CAPI cluster. *)
Theorem NewArgoCluster_panics_iff (cfg : Config)
    (labelOrder annotationOrder : list string)
    (c : option CapiCluster) (s : option Secret) (cluster : option Cluster) :
  ((NewArgoCluster cfg labelOrder annotationOrder c s cluster).2 = Panicked
   ↔ s = None
     ∨ c = None
     ∨ ∃ c', c = Some c'
             ∧ (Clusters (capiKubeConfig c') = []
                ∨ Users (capiKubeConfig c') = []))
  ∧ (∀ a err,
       (NewArgoCluster cfg labelOrder annotationOrder c s cluster).2
         = Returned a err → err = None)
  ∧ (NewArgoCluster cfg labelOrder annotationOrder c s cluster).1
    = (NewArgoCluster cfg labelOrder annotationOrder None None cluster).1.
Proof.
  unfold NewArgoCluster.
  destruct (match cluster with
            | Some cl => buildTakeAlongArray labelOrder cl metaLabels
            | None => (MkMap ∅, [])
            end) as [ml el].
  destruct (match cluster with
            | Some cl => buildTakeAlongArray annotationOrder cl metaAnnotations
            | None => (MkMap ∅, [])
            end) as [ma ea].
  simpl. split; [| split; [| done]].
  - destruct s as [s|]; [| split; [by left | done]].
    destruct c as [c|]; [| split; [by right; left | done]].
    destruct (Clusters (capiKubeConfig c)) as [|c0 cs] eqn:Ec;
      destruct (Users (capiKubeConfig c)) as [|u0 us] eqn:Eu; simpl.
    + split; [| done]. intros _. right; right. exists c. rewrite Ec. eauto.
    + split; [| done]. intros _. right; right. exists c. rewrite Ec. eauto.
    + split; [| done]. intros _. right; right. exists c. rewrite Eu. eauto.
    + split; [done |].
      intros [? | [? | (c' & [= <-] & [H | H])]]; try done.
      * by rewrite Ec in H.
      * by rewrite Eu in H.
  - intros a err. destruct s as [s|]; [| done]. destruct c as [c|]; [| done].
    destruct (Clusters (capiKubeConfig c) !! 0%nat); [| done].
    destruct (Users (capiKubeConfig c) !! 0%nat); [| done].
    by intros [= _ <-].
Qed.

(** What a returned object holds: the secret and the CAPI cluster were
    there, and the fields are read from the first cluster and the first
    user. *)
Lemma NewArgoCluster_returned (cfg : Config)
    (labelOrder annotationOrder : list string)
    (c : option CapiCluster) (s : option Secret) (cluster : option Cluster)
    (a : ArgoCluster) (err : option string) :
  (NewArgoCluster cfg labelOrder annotationOrder c s cluster).2
    = Returned a err →
  ∃ c' s' cluster0 user0,
    c = Some c' ∧ s = Some s'
    ∧ Clusters (capiKubeConfig c') !! 0%nat = Some cluster0
    ∧ Users (capiKubeConfig c') !! 0%nat = Some user0
    ∧ acNamespacedName a
      = BuildNamespacedName cfg (secName s') (secNamespace s')
    ∧ acClusterName a
      = BuildClusterName cfg (ncName cluster0) (secNamespace s')
    ∧ acClusterServer a = kcServer (ncCluster cluster0)
    ∧ acClusterConfig a
      = {| BearerToken := kuToken (nuUser user0);
           TLSClientConfig :=
             Some {| CaData := Some (kcCaData (ncCluster cluster0));
                     CertData := kuCertData (nuUser user0);
                     KeyData := kuKeyData (nuUser user0) |} |}.
Proof.
  unfold NewArgoCluster.
  destruct (match cluster with
            | Some cl => buildTakeAlongArray labelOrder cl metaLabels
            | None => (MkMap ∅, [])
            end) as [ml el].
  destruct (match cluster with
            | Some cl => buildTakeAlongArray annotationOrder cl metaAnnotations
            | None => (MkMap ∅, [])
            end) as [ma ea].
  simpl.
  destruct s as [s|]; [| done]. destruct c as [c|]; [| done].
  destruct (Clusters (capiKubeConfig c) !! 0%nat) as [c0|] eqn:Ec; [| done].
  destruct (Users (capiKubeConfig c) !! 0%nat) as [u0|] eqn:Eu; [| done].
  intros [= <- _]. by exists c, s, c0, u0.
Qed.


(** ** More on ConvertToSecret *)

(** X13. The secret does not depend on the orders in which the three
    [range] loops of [ConvertToSecret] visit their maps. *)
Theorem ConvertToSecret_order_independent (quote : string → string)
    (a : ArgoCluster)
    (commonOrder clusterOrder takeAlongOrder : list (string * string))
    (commonOrder' clusterOrder' takeAlongOrder' : list (string * string)) :
  entryOrder GetArgoCommonLabels commonOrder →
  entryOrder GetArgoCommonLabels commonOrder' →
  entryOrder (acClusterLabels a) clusterOrder →
  entryOrder (acClusterLabels a) clusterOrder' →
  entryOrder (entries (acTakeAlongLabels a)) takeAlongOrder →
  entryOrder (entries (acTakeAlongLabels a)) takeAlongOrder' →
  ConvertToSecret quote commonOrder clusterOrder takeAlongOrder a
    = ConvertToSecret quote commonOrder' clusterOrder' takeAlongOrder' a.
Proof.
  intros H1 H1' H2 H2' H3 H3'. unfold ConvertToSecret. simpl.
  by rewrite (rangeInsert_union _ _ _ H1), (rangeInsert_union _ _ _ H1'),
    (rangeInsert_union _ _ _ H2), (rangeInsert_union _ _ _ H2'),
    (rangeInsert_union _ _ _ H3), (rangeInsert_union _ _ _ H3').
Qed.

(** X14. Assembly followed by synthesis: given a CAPI cluster whose
    kubeconfig lists a cluster and a user, and a source secret, the secret made from the assembled object has
    kind [Secret] and version [v1], the name [cluster-] followed by the
    cluster name built from the source secret's name without
    [-kubeconfig], the namespace [ArgoNamespace], and a data payload of
    exactly the three keys [name], [server] and [config]: the cluster
    name built from the first cluster's name and the source secret's
    namespace, the first cluster's server, and the bytes of the
    configuration. Synthesis returns no error. *)
Theorem ConvertToSecret_of_NewArgoCluster (quote : string → string)
    (cfg : Config) (labelOrder annotationOrder : list string)
    (commonOrder clusterOrder takeAlongOrder : list (string * string))
    (c : CapiCluster) (s : Secret) (cluster : option Cluster)
    (cluster0 : NamedCluster) (user0 : NamedUser) :
  Clusters (capiKubeConfig c) !! 0%nat = Some cluster0 →
  Users (capiKubeConfig c) !! 0%nat = Some user0 →
  ∃ a sec,
    (NewArgoCluster cfg labelOrder annotationOrder (Some c) (Some s)
       cluster).2
      = Returned a None
    ∧ ConvertToSecret quote commonOrder clusterOrder takeAlongOrder a
      = (Some sec, None)
    ∧ secKind sec = "Secret"
    ∧ secAPIVersion sec = "v1"
    ∧ secName sec
      = "cluster-"
          +:+ BuildClusterName cfg (TrimSuffix (secName s) "-kubeconfig")
                (secNamespace s)
    ∧ secNamespace sec = ArgoNamespace cfg
    ∧ dom (secData sec) = {["name"; "server"; "config"]}
    ∧ secData sec !! "name"
      = Some (BuildClusterName cfg (ncName cluster0) (secNamespace s))
    ∧ secData sec !! "server" = Some (kcServer (ncCluster cluster0))
    ∧ secData sec !! "config"
      = Some (render quote (marshalArgoConfig (acClusterConfig a))).
Proof.
  intros Hc Hu.
  destruct (NewArgoCluster cfg labelOrder annotationOrder (Some c) (Some s)
              cluster) as [log out] eqn:Hnew.
  assert (∃ a, out = Returned a None) as [a ->].
  { unfold NewArgoCluster in Hnew. rewrite Hc, Hu in Hnew.
    destruct (match cluster with
              | Some cl => buildTakeAlongArray labelOrder cl metaLabels
              | None => (MkMap ∅, [])
              end) as [ml el].
    destruct (match cluster with
              | Some cl => buildTakeAlongArray annotationOrder cl metaAnnotations
              | None => (MkMap ∅, [])
              end) as [ma ea].
    injection Hnew as _ <-. by eexists. }
  destruct (NewArgoCluster_returned cfg labelOrder annotationOrder (Some c)
              (Some s) cluster a None)
    as (c' & s' & c0 & u0 & Hc' & Hs' & Hc0 & Hu0 & Hnn & Hname & Hserver & _).
  { by rewrite Hnew. }
  injection Hc' as <-. injection Hs' as <-.
  rewrite Hc in Hc0. rewrite Hu in Hu0. simplify_eq.
  exists a. eexists. split; [done |].
  unfold ConvertToSecret. simpl. split; [reflexivity |]. simpl.
  rewrite Hnn, Hname, Hserver. simpl.
  split; [done |]. split; [done |]. split; [done |]. split; [done |].
  split; [| by rewrite !lookup_insert].
  rewrite !dom_insert_L, dom_empty_L. set_solver.
Qed.

(** X15. When the extractor rejects a label key of the cluster resource,
    the secret made from the assembled object carries exactly the four
    fixed labels: the two common ones and the two identity ones, and no
    take-along label at all. *)
Theorem ConvertToSecret_labels_after_malformed (quote : string → string)
    (cfg : Config) (labelOrder annotationOrder : list string)
    (commonOrder clusterOrder takeAlongOrder : list (string * string))
    (c : CapiCluster) (s : Secret) (cl : Cluster) (a : ArgoCluster) :
  (NewArgoCluster cfg labelOrder annotationOrder (Some c) (Some s)
     (Some cl)).2
    = Returned a None →
  keyOrder (clLabels cl) labelOrder →
  (∃ k, k ∈ dom (clLabels cl) ∧ (extractTakeAlongMeta "label" k).2 ≠ None) →
  entryOrder GetArgoCommonLabels commonOrder →
  entryOrder (acClusterLabels a) clusterOrder →
  entryOrder (entries (acTakeAlongLabels a)) takeAlongOrder →
  ∃ sec,
    ConvertToSecret quote commonOrder clusterOrder takeAlongOrder a
      = (Some sec, None)
    ∧ secLabels sec
      = <["capi-to-argocd/cluster-namespace" := capiNamespace c]>
          (<["capi-to-argocd/cluster-secret-name"
               := capiName c +:+ "-kubeconfig"]>
             (<["argocd.argoproj.io/secret-type" := "cluster"]>
                (<["capi-to-argocd/owned" := "true"]> ∅))).
Proof.
  intros Hret Hord Hbad H1 H2 H3.
  pose proof (NewArgoCluster_identity_labels _ _ _ _ _ _ _ _ Hret) as Hid.
  assert (acTakeAlongLabels a = NilMap) as Hnil.
  { unfold NewArgoCluster in Hret.
    rewrite buildTakeAlongArray_labels in Hret.
    destruct (collectTakeAlong_rejected (GetMetaType metaLabels) (clName cl)
                (clNamespace cl) _ _ Hord Hbad) as [e He].
    rewrite He in Hret.
    destruct (buildTakeAlongArray annotationOrder cl metaAnnotations)
      as [ma ea].
    simpl in Hret.
    destruct (Clusters (capiKubeConfig c) !! 0%nat); [| done].
    destruct (Users (capiKubeConfig c) !! 0%nat); [| done].
    by injection Hret as <-. }
  unfold ConvertToSecret. simpl. eexists. split; [reflexivity |]. simpl.
  rewrite (rangeInsert_union _ _ _ H1), (rangeInsert_union _ _ _ H2),
    (rangeInsert_union _ _ _ H3).
  rewrite Hnil, Hid, (right_id_L ∅ (∪)). simpl.
  by rewrite (left_id_L ∅ (∪)), <- !insert_union_l, (left_id_L ∅ (∪)).
Qed.

(** ** Instances of the further properties *)

Section MoreWitnesses.

Import Examples MoreExamples.

Lemma extractTakeAlongMeta_target_shape_witness :
  (extractTakeAlongMeta "label"
     "take-along-label.capi-to-argocd.a.take-along-label.capi-to-argocd.b/x").2
    = None
  ∧ HasPrefix "a." (clusterTakeAlongKeyFmt "label") = false
  ∧ ∃ rest,
      "take-along-label.capi-to-argocd.a.take-along-label.capi-to-argocd.b/x"
        = clusterTakeAlongKeyFmt "label" +:+ "a." +:+ rest
      ∧ (rest = EmptyString
         ∨ HasPrefix rest (clusterTakeAlongKeyFmt "label") = true).
Proof.
  apply (extractTakeAlongMeta_target_shape "label"
           "take-along-label.capi-to-argocd.a.take-along-label.capi-to-argocd.b/x"
           "a.").
  - by vm_compute.
  - done.
Defined.

Lemma plainLabels_dom (k : string) :
  k ∈ dom plainLabels → k = "env" ∨ k = "tier".
Proof.
  intros Hk. apply elem_of_dom in Hk. unfold plainLabels in Hk.
  rewrite !lookup_insert in Hk. repeat case_decide; subst; eauto.
  rewrite lookup_empty in Hk. by destruct Hk.
Defined.

Lemma buildTakeAlongArray_no_requests_witness :
  buildTakeAlongArray (map_to_list plainLabels).*1 plainCluster metaLabels
  = (MkMap ∅, []).
Proof.
  apply buildTakeAlongArray_no_requests.
  intros k Hk.
  apply (keyOrder_elem plainLabels _ _ (keyOrder_canonical _)) in Hk.
  destruct (plainLabels_dom k Hk) as [-> | ->]; by vm_compute.
Defined.

Lemma buildTakeAlongArray_first_rejected_witness :
  buildTakeAlongArray
    (["take-along-label.capi-to-argocd.foo"]
       ++ "take-along-label.capi-to-argocd." :: ["foo"])
    malformedCluster metaLabels
  = (NilMap,
     [malformedKeyError "label" "take-along-label.capi-to-argocd."]).
Proof.
  apply (buildTakeAlongArray_first_rejected
           ["take-along-label.capi-to-argocd.foo"] ["foo"]
           "take-along-label.capi-to-argocd." malformedCluster metaLabels).
  - by left.
  - intros k' Hk'. apply list_elem_of_singleton in Hk' as ->. by vm_compute.
  - by vm_compute.
Defined.

Lemma malformedLabels_dom (k : string) :
  k ∈ dom malformedLabels →
  k = "take-along-label.capi-to-argocd."
  ∨ k = "take-along-label.capi-to-argocd.foo" ∨ k = "foo".
Proof.
  intros Hk. apply elem_of_dom in Hk. unfold malformedLabels in Hk.
  rewrite !lookup_insert in Hk. repeat case_decide; subst; eauto.
  rewrite lookup_empty in Hk. by destruct Hk.
Defined.

Lemma buildTakeAlongArray_unique_rejected_witness :
  buildTakeAlongArray (reverse (map_to_list malformedLabels).*1)
    malformedCluster metaLabels
  = (NilMap,
     [malformedKeyError "label" "take-along-label.capi-to-argocd."]).
Proof.
  apply (buildTakeAlongArray_unique_rejected malformedCluster metaLabels
           (reverse (map_to_list malformedLabels).*1)
           "take-along-label.capi-to-argocd.").
  - by left.
  - unfold keyOrder. apply reverse_Permutation.
  - apply elem_of_dom. vm_compute. by eexists.
  - by vm_compute.
  - intros k' Hk' Hne.
    destruct (malformedLabels_dom k' Hk') as [-> | [-> | ->]];
      [done | by vm_compute | by vm_compute].
Defined.

Lemma buildTakeAlongArray_result_no_requests_witness :
  HasPrefix "foo" (mtTakeAlong (GetMetaType metaLabels)) = false.
Proof.
  apply (buildTakeAlongArray_result_no_requests siblingCluster metaLabels
           (map_to_list siblingLabels).*1 "foo").
  vm_compute. by eexists.
Defined.

Lemma buildTakeAlongArray_order_independent_witness :
  (buildTakeAlongArray (map_to_list missingLabels).*1
     missingCluster metaLabels).1
    = (buildTakeAlongArray (reverse (map_to_list missingLabels).*1)
         missingCluster metaLabels).1
  ∧ (buildTakeAlongArray (map_to_list missingLabels).*1
       missingCluster metaLabels).2
    ≡ₚ (buildTakeAlongArray (reverse (map_to_list missingLabels).*1)
          missingCluster metaLabels).2.
Proof.
  apply (buildTakeAlongArray_order_independent missingCluster metaLabels).
  - by left.
  - apply keyOrder_canonical.
  - unfold keyOrder. apply reverse_Permutation.
  - intros k Hk.
    destruct (missingLabels_dom k Hk) as [-> | [-> | ->]]; by vm_compute.
  - intros k Hk.
    destruct (missingLabels_dom k Hk) as [-> | [-> | ->]]; by vm_compute.
Defined.


Lemma ConvertToSecret_order_independent_witness :
  ConvertToSecret plainQuote (map_to_list GetArgoCommonLabels)
    (map_to_list (acClusterLabels colliding))
    (map_to_list (entries (acTakeAlongLabels colliding))) colliding
  = ConvertToSecret plainQuote (reverse (map_to_list GetArgoCommonLabels))
      (reverse (map_to_list (acClusterLabels colliding)))
      (reverse (map_to_list (entries (acTakeAlongLabels colliding)))) colliding.
Proof.
  apply (ConvertToSecret_order_independent plainQuote colliding
           (map_to_list GetArgoCommonLabels)
           (map_to_list (acClusterLabels colliding))
           (map_to_list (entries (acTakeAlongLabels colliding)))
           (reverse (map_to_list GetArgoCommonLabels))
           (reverse (map_to_list (acClusterLabels colliding)))
           (reverse (map_to_list (entries (acTakeAlongLabels colliding))))).
  - exact (entryOrder_canonical _).
  - exact (reverse_Permutation _).
  - exact (entryOrder_canonical _).
  - exact (reverse_Permutation _).
  - exact (entryOrder_canonical _).
  - exact (reverse_Permutation _).
Defined.

Lemma ConvertToSecret_of_NewArgoCluster_witness :
  ∃ a sec,
    (NewArgoCluster cfg [] [] (Some capi) (Some source) None).2
    = Returned a None
    ∧ ConvertToSecret plainQuote (map_to_list GetArgoCommonLabels)
        (map_to_list (acClusterLabels a)) [] a
      = (Some sec, None)
    ∧ secName sec = "cluster-prod"
    ∧ secNamespace sec = "argocd"
    ∧ secData sec !! "name" = Some "prod"
    ∧ secData sec !! "server" = Some "https://prod:6443".
Proof.
  eexists. 
  destruct (ConvertToSecret_of_NewArgoCluster plainQuote cfg [] []
              (map_to_list GetArgoCommonLabels)
              (map_to_list
                 (<["capi-to-argocd/cluster-namespace" := "team-a"]>
                    (<["capi-to-argocd/cluster-secret-name" := "prod-kubeconfig"]>
                       ∅)))
              [] capi source None
              (mkNamedCluster "prod" (mkKubeCluster "https://prod:6443" "Q0E="))
              (mkNamedUser (mkKubeUser None (Some "Q1JU") (Some "S0VZ"))))
    as (a & sec & Ha & Hs & _ & _ & Hn & Hns & _ & Hdn & Hds & _);
    [reflexivity | reflexivity |].
  exists sec. split; [reflexivity |].
  injection Ha as <-.
  split; [exact Hs |]. split; [exact Hn |]. split; [exact Hns |].
  split; [exact Hdn | exact Hds].
Defined.

Lemma ConvertToSecret_labels_after_malformed_witness :
  ∃ a sec,
    (NewArgoCluster cfg (map_to_list malformedLabels).*1 [] (Some capi)
       (Some source) (Some malformedCluster)).2 = Returned a None
    ∧ ConvertToSecret plainQuote (map_to_list GetArgoCommonLabels)
        (map_to_list (acClusterLabels a))
        (map_to_list (entries (acTakeAlongLabels a))) a
      = (Some sec, None)
    ∧ secLabels sec
      = <["capi-to-argocd/cluster-namespace" := "team-a"]>
          (<["capi-to-argocd/cluster-secret-name" := "prod-kubeconfig"]>
             (<["argocd.argoproj.io/secret-type" := "cluster"]>
                (<["capi-to-argocd/owned" := "true"]> ∅))).
Proof.
  assert (∃ a, (NewArgoCluster cfg (map_to_list malformedLabels).*1 []
                  (Some capi) (Some source) (Some malformedCluster)).2
               = Returned a None)
    as [a Ha] by (vm_compute; by eexists).
  destruct (ConvertToSecret_labels_after_malformed plainQuote cfg
              (map_to_list malformedLabels).*1 []
              (map_to_list GetArgoCommonLabels)
              (map_to_list (acClusterLabels a))
              (map_to_list (entries (acTakeAlongLabels a)))
              capi source malformedCluster a Ha)
    as (sec & Hs & Hl).
  - exact (keyOrder_canonical _).
  - exists "take-along-label.capi-to-argocd.". split.
    + apply elem_of_dom. vm_compute. by eexists.
    + by vm_compute.
  - exact (entryOrder_canonical _).
  - exact (entryOrder_canonical _).
  - exact (entryOrder_canonical _).
  - exists a, sec. split; [exact Ha |]. split; [exact Hs | exact Hl].
Defined.

End MoreWitnesses.
